(** * The request dispatch pipeline of the MCP TypeScript server

    A shallow embedding of [src/middleware/index.ts] (the middleware chain,
    the logging stage and the sliding-window rate limiter), of the request
    handlers of [src/server.ts] and of [src/health.ts], with the properties
    the specification states about them.

    Conventions.
    - An [async] function that is awaited at every call site is modelled
      as a sequential computation; a rejected promise is a thrown value.
    - Time is the millisecond count of [Date.now()], an integer.  The
      specification counts in seconds: its 60-unit window is the
      [60000] of the source.
    - JavaScript numbers that the code only uses as integers (lengths,
      timestamps, byte counts, the rate ceiling) are [Z]. *)

From Stdlib Require Import ZArith Ascii.
From stdpp Require Import base tactics option list strings gmap pretty.

Local Open Scope Z_scope.

(** ** Thrown values *)

(** What a [throw] carries: an [Error] instance with its message, or some
    other value ([error instanceof Error] is false for it). *)
Inductive Thrown : Type :=
| ErrorObj (message : string)
| NonError.

(** ** The middleware chain ([MiddlewareManager]) *)

Section Chain.
Context {W V Ctx : Type}.

Definition Outcome : Type := V + Thrown.

(** The body of a middleware function, as far as the chain can tell:
    it reads and updates the state of the process, may await [next()]
    (receiving the value the promise resolves to, or what it rejects
    with, which a [try]/[catch] around the call can observe), and ends
    by returning or throwing. *)
Inductive Script : Type :=
| Return (v : V)
| Throw (e : Thrown)
| GetState (k : W -> Script)
| SetState (w : W) (k : Script)
| AwaitNext (k : Outcome -> Script).

(** [return next()] and [throw error] after a [catch]: hand on an
    outcome unchanged. *)
Definition Finish (o : Outcome) : Script :=
  match o with
  | inl v => Return v
  | inr e => Throw e
  end.

Definition MiddlewareFunction : Type := Ctx -> Script.

(** Ghost record of what ran: [StageRan i] when [this.middlewares[i]]
    is invoked, [HandlerRan] when the terminal handler is. *)
Inductive Event : Type :=
| StageRan (i : nat)
| HandlerRan.

(** The state of one call of [execute]: the captured variable [index],
    the process state and the ghost trace. *)
Record Exec : Type := mkExec {
  index : nat;
  world : W;
  trace : list Event;
}.

Definition Next : Type := Exec -> option (Outcome * Exec).

(** Running a middleware body against a given [next]. *)
Fixpoint run (nxt : Next) (s : Script) (st : Exec) : option (Outcome * Exec) :=
  match s with
  | Return v => Some (inl v, st)
  | Throw e => Some (inr e, st)
  | GetState k => run nxt (k (world st)) st
  | SetState w k => run nxt k (mkExec (index st) w (trace st))
  | AwaitNext k =>
      match nxt st with
      | Some (o, st') => run nxt (k o) st'
      | None => None
      end
  end.

(** How far a body gets on its own from a state of the process: to
    its end, or to its first [await next()], with what it does with
    the outcome of that call. *)
Inductive Progress : Type :=
| Ended (o : Outcome) (w : W)
| Called (k : Outcome -> Script) (w : W).

Fixpoint firstNext (s : Script) (w : W) : Progress :=
  match s with
  | Return v => Ended (inl v) w
  | Throw e => Ended (inr e) w
  | GetState k => firstNext (k w) w
  | SetState w' k => firstNext k w'
  | AwaitNext k => Called k w
  end.

(** What a body returns or throws, and the state it leaves, when from
    the state [w] it ends without awaiting [next()]. *)
Definition withoutNext (s : Script) (w : W) : option (Outcome * W) :=
  match firstNext s w with
  | Ended o w' => Some (o, w')
  | Called _ _ => None
  end.

Section Execute.
Variable middlewares : list MiddlewareFunction.
Variable context : Ctx.
Variable handler : W -> Outcome * W.

(** The closure [next] of [execute].  [index] is shared by all the
    calls of [next]; [depth] bounds the nesting of calls of [next]
    inside one another, which is at most the number of stages since
    each nested call has incremented [index]. *)
Fixpoint next (depth : nat) (st : Exec) : option (Outcome * Exec) :=
  if decide (length middlewares <= index st)%nat then
    let '(o, w) := handler (world st) in
    Some (o, mkExec (index st) w (trace st ++ [HandlerRan]))
  else
    match depth with
    | O => None
    | S d =>
        match middlewares !! index st with
        | Some middleware =>
            run (next d) (middleware context)
                (mkExec (S (index st)) (world st)
                        (trace st ++ [StageRan (index st)]))
        | None => None
        end
    end.

Definition execute (w : W) : option (Outcome * Exec) :=
  next (length middlewares) (mkExec 0 w []).
End Execute.

(** The state in which the stage that follows the stages [pre] is
    entered, when each of them gets to its [await next()]: every stage
    starts in the state the one before it has reached. *)
Fixpoint entered (pre : list MiddlewareFunction) (context : Ctx) (w : W)
    : option W :=
  match pre with
  | [] => Some w
  | m :: later =>
      match firstNext (m context) w with
      | Called _ w1 => entered later context w1
      | Ended _ _ => None
      end
  end.

(** *** Shapes of middleware bodies *)

(** The body never awaits [next()]. *)
Inductive NeverCallsNext : Script -> Prop :=
| ncn_return v : NeverCallsNext (Return v)
| ncn_throw e : NeverCallsNext (Throw e)
| ncn_get k : (forall w, NeverCallsNext (k w)) -> NeverCallsNext (GetState k)
| ncn_set w k : NeverCallsNext k -> NeverCallsNext (SetState w k).

(** The body awaits [next()] at most once on every path. *)
Inductive CallsNextAtMostOnce : Script -> Prop :=
| amo_return v : CallsNextAtMostOnce (Return v)
| amo_throw e : CallsNextAtMostOnce (Throw e)
| amo_get k : (forall w, CallsNextAtMostOnce (k w)) -> CallsNextAtMostOnce (GetState k)
| amo_set w k : CallsNextAtMostOnce k -> CallsNextAtMostOnce (SetState w k)
| amo_next k : (forall o, NeverCallsNext (k o)) -> CallsNextAtMostOnce (AwaitNext k).

(** The body ends with the outcome [o] without awaiting [next()]. *)
Inductive Yields (o : Outcome) : Script -> Prop :=
| yields_return v : o = inl v -> Yields o (Return v)
| yields_throw e : o = inr e -> Yields o (Throw e)
| yields_get k : (forall w, Yields o (k w)) -> Yields o (GetState k)
| yields_set w k : Yields o k -> Yields o (SetState w k).

(** The body awaits [next()] exactly once and ends with the outcome it
    received: the value returned as it is, the failure thrown again. *)
Inductive Relays : Script -> Prop :=
| relays_get k : (forall w, Relays (k w)) -> Relays (GetState k)
| relays_set w k : Relays k -> Relays (SetState w k)
| relays_next k : (forall o, Yields o (k o)) -> Relays (AwaitNext k).

End Chain.

Arguments Script : clear implicits.
Arguments MiddlewareFunction : clear implicits.
Arguments Exec : clear implicits.
Arguments Outcome : clear implicits.

(** ** Data of the server ([src/types/index.ts]) *)

Inductive ContentType : Type := TextContent | ImageContent | ResourceContent.

Record ContentPart : Type := mkContentPart {
  part_type : ContentType;
  part_text : option string;
  part_data : option string;
  part_mimeType : option string;
}.

(** [{ type: 'text', text }] *)
Definition textPart (text : string) : ContentPart :=
  mkContentPart TextContent (Some text) None None.

(** [isError] is an optional field: the tools leave it out on success. *)
Record ToolResult : Type := mkToolResult {
  content : list ContentPart;
  isError : option bool;
}.

(** Object literals of strings, arrays and objects, as the input
    schemas of the tool definitions are. *)
#[local] Unset Elimination Schemes.
Inductive Json : Type :=
| JString (s : string)
| JArray (items : list Json)
| JObject (fields : list (string * Json)).
#[local] Set Elimination Schemes.

Record ToolDefinition : Type := mkToolDefinition {
  def_name : string;
  def_description : string;
  def_inputSchema : Json;
}.

Record Resource : Type := mkResource {
  res_uri : string;
  res_name : string;
  res_description : option string;
  res_mimeType : option string;
}.

Record MiddlewareContext (Params : Type) : Type := mkContext {
  method : string;
  params : Params;
  timestamp : Z;
}.
Arguments mkContext {Params}.
Arguments method {Params}.
Arguments params {Params}.
Arguments timestamp {Params}.

(** What the four request handlers resolve to. *)
Inductive Response : Type :=
| ToolsList (tools : list ToolDefinition)
| CallToolResult (result : ToolResult)
| ResourcesList (resources : list Resource)
| ResourceContents (uri mimeType text : string).

(** ** A JavaScript [Map] with string keys

    Iteration follows insertion order and [set] on a present key keeps
    its position, so the map is a list of bindings without repeated
    keys. *)
Module JsMap.
Definition t (A : Type) : Type := list (string * A).

Definition empty {A} : t A := [].

Fixpoint get {A} (key : string) (m : t A) : option A :=
  match m with
  | [] => None
  | (k, v) :: rest => if decide (key = k) then Some v else get key rest
  end.

Fixpoint set {A} (key : string) (value : A) (m : t A) : t A :=
  match m with
  | [] => [(key, value)]
  | (k, v) :: rest =>
      if decide (key = k) then (k, value) :: rest
      else (k, v) :: set key value rest
  end.

Definition size {A} (m : t A) : nat := length m.

Definition values {A} (m : t A) : list A := m.*2.

Definition keys {A} (m : t A) : list string := m.*1.
End JsMap.

(** ** The rate limiter ([rateLimitMiddleware]) *)

(** The verdict of a check: admitted ([Accepted]) or rejected. *)
Inductive Admission : Type := Accepted | Rejected.

(** Lines 51 to 64 of the stage, for the client identifier and the
    reading of [Date.now()] it is run with.  [filter] builds a new array,
    which is stored in the map and then, on admission, extended in place
    by [push]: the map sees the pushed timestamp, so the binding after an
    admission is [recentRequests ++ [now]]. *)
Definition checkAndRecord (requestsPerMinute : Z) (clientId : string) (now : Z)
    (requests : gmap string (list Z)) : Admission * gmap string (list Z) :=
  let windowStart := now - 60000 in
  let requests1 :=
    if decide (is_Some (requests !! clientId)) then requests
    else <[clientId := []]> requests in
  let clientRequests := default [] (requests1 !! clientId) in
  let recentRequests := filter (fun time => windowStart < time) clientRequests in
  let requests2 := <[clientId := recentRequests]> requests1 in
  if decide (requestsPerMinute <= Z.of_nat (length recentRequests))
  then (Rejected, requests2)
  else (Accepted, <[clientId := recentRequests ++ [now]]> requests2).

(** A run of successive checks for one client, oldest first: the
    outcomes and the map after the last one. *)
Fixpoint checkAll (requestsPerMinute : Z) (clientId : string) (times : list Z)
    (requests : gmap string (list Z)) : list Admission * gmap string (list Z) :=
  match times with
  | [] => ([], requests)
  | now :: later =>
      let '(a, requests') := checkAndRecord requestsPerMinute clientId now requests in
      let '(outcomes, final) := checkAll requestsPerMinute clientId later requests' in
      (a :: outcomes, final)
  end.

(** The timestamps of the admitted checks of a run, oldest first. *)
Fixpoint admissions (requestsPerMinute : Z) (clientId : string) (times : list Z)
    (requests : gmap string (list Z)) : list Z :=
  match times with
  | [] => []
  | now :: later =>
      let '(a, requests') := checkAndRecord requestsPerMinute clientId now requests in
      match a with
      | Accepted => now :: admissions requestsPerMinute clientId later requests'
      | Rejected => admissions requestsPerMinute clientId later requests'
      end
  end.

(** The sequence stored for a client; none is the empty one. *)
Definition stored (clientId : string) (requests : gmap string (list Z)) : list Z :=
  default [] (requests !! clientId).

(** Readings of the clock that never go back, none before [lo]. *)
Fixpoint nondecreasing (lo : Z) (times : list Z) : Prop :=
  match times with
  | [] => True
  | t :: later => lo <= t /\ nondecreasing t later
  end.

(** The admissions that lie in the window trailing the instant [t]. *)
Definition withinWindow (t : Z) (accepted : list Z) : list Z :=
  filter (fun a => t - 60000 < a <= t) accepted.

(** ** The health checker ([src/health.ts]) *)

Inductive Status : Type := healthy | unhealthy.

Record MemoryUsage : Type := mkMemoryUsage {
  heapUsed : Z;
  heapTotal : Z;
}.

Record HealthStatus : Type := mkHealthStatus {
  status : Status;
  health_timestamp : string;
  uptime : Z;
  memory_used : Z;
  memory_total : Z;
  tools_calculator : bool;
  tools_fileManager : bool;
}.

Record HealthChecker : Type := mkHealthChecker {
  startTime : Z;
  memoryThreshold : Z;
}.

(** The field initialisers of the class, for an instance created at
    [now]. *)
Definition newHealthChecker (now : Z) : HealthChecker :=
  mkHealthChecker now (500 * 1024 * 1024).

(** [getHealthStatus], for the readings of [Date.now()],
    [new Date().toISOString()] and [process.memoryUsage()] at the call. *)
Definition getHealthStatus (this : HealthChecker) (now : Z) (iso : string)
    (memUsage : MemoryUsage) : HealthStatus :=
  let isHealthy := bool_decide (heapUsed memUsage < memoryThreshold this) in
  mkHealthStatus (if isHealthy then healthy else unhealthy)
                 iso
                 (now - startTime this)
                 (heapUsed memUsage)
                 (heapTotal memUsage)
                 true true.

Definition isHealthy (this : HealthChecker) (now : Z) (iso : string)
    (memUsage : MemoryUsage) : bool :=
  match status (getHealthStatus this now iso memUsage) with
  | healthy => true
  | unhealthy => false
  end.

(** ** The tools ([src/tools]) *)

(** The two tool classes.  An instance has no state that the routing
    reads, so a tool object is its class. *)
Inductive Tool : Type := CalculatorTool | FileManagerTool.

Definition quote : string := String (Ascii.ascii_of_nat 34) EmptyString.

(** [getDefinition()] of either class. *)
Definition getDefinition (tool : Tool) : ToolDefinition :=
  match tool with
  | CalculatorTool =>
      mkToolDefinition "calculate"
        "Perform mathematical calculations with support for basic operations"
        (JObject
           [("type", JString "object");
            ("properties",
             JObject
               [("expression",
                 JObject
                   [("type", JString "string");
                    ("description",
                     JString ("Mathematical expression to evaluate (e.g., "
                              +:+ quote +:+ "2 + 3 * 4" +:+ quote +:+ ")"))])]);
            ("required", JArray [JString "expression"])])
  | FileManagerTool =>
      mkToolDefinition "file_operations"
        "Manage files and directories with read, write, and list operations"
        (JObject
           [("type", JString "object");
            ("properties",
             JObject
               [("operation",
                 JObject
                   [("type", JString "string");
                    ("enum", JArray [JString "read"; JString "write"; JString "list"]);
                    ("description", JString "Operation to perform")]);
                ("path",
                 JObject
                   [("type", JString "string");
                    ("description", JString "File or directory path")]);
                ("content",
                 JObject
                   [("type", JString "string");
                    ("description",
                     JString "Content to write (required for write operation)")])]);
            ("required", JArray [JString "operation"; JString "path"])])
  end.

(** The values of the configuration that the server reads. *)
Record ServerConfig : Type := mkServerConfig {
  rateLimitRpm : Z;
  calculatorEnabled : bool;
  fileManagerEnabled : bool;
}.

(** The defaults of [ConfigManager.loadConfig]. *)
Definition defaultConfig : ServerConfig := mkServerConfig 60 true true.

(** [initializeTools]: the one [FileManagerTool] instance is bound to
    three names. *)
Definition initializeTools (config : ServerConfig) : JsMap.t Tool :=
  let tools := JsMap.empty in
  let tools :=
    if calculatorEnabled config then
      let calculatorTool := CalculatorTool in
      JsMap.set "calculate" calculatorTool tools
    else tools in
  if fileManagerEnabled config then
    let fileManagerTool := FileManagerTool in
    JsMap.set "list_directory" fileManagerTool
      (JsMap.set "write_file" fileManagerTool
         (JsMap.set "read_file" fileManagerTool tools))
  else tools.

(** [initializeResources] *)
Definition initializeResources : JsMap.t Resource :=
  JsMap.set "health://status.json"
    (mkResource "health://status.json" "Health Status"
       (Some "Current server health status") (Some "application/json"))
    (JsMap.set "logs://recent.txt"
       (mkResource "logs://recent.txt" "Recent Logs"
          (Some "Recent server logs") (Some "text/plain"))
       (JsMap.set "config://server.json"
          (mkResource "config://server.json" "Server Configuration"
             (Some "Current server configuration") (Some "application/json"))
          JsMap.empty)).

(** ** The server ([src/server.ts]) *)

Inductive Level : Type := INFO | ERROR | WARN | DEBUG.

(** What reaches the console, by the statement that writes it. *)
Inductive ConsoleEntry : Type :=
| Starting (timestamp : Z) (method : string)
| Completed (timestamp : Z) (method : string) (duration : Z)
| Failed (timestamp : Z) (method : string) (duration : Z) (error : Thrown)
| LoggerLine (level : Level) (message : string).

(** What the resources/read handler serves from: the serialised
    configuration ([JSON.stringify] of [getConfig()]), the text that
    [getRecentLogs()] makes of the entries of the logger, the
    serialisation of a health snapshot, the health checker of the
    server, and the readings of [process.memoryUsage()] and of
    [new Date().toISOString()]. *)
Record ResourceSources (Env : Type) : Type := mkResourceSources {
  configJson : string;
  recentLogs : list (Level * string) -> string;
  healthJson : HealthStatus -> string;
  healthChecker : HealthChecker;
  memoryUsage : Env -> MemoryUsage;
  isoDate : Env -> string;
}.
Arguments mkResourceSources {Env}.
Arguments configJson {Env}.
Arguments recentLogs {Env}.
Arguments healthJson {Env}.
Arguments healthChecker {Env}.
Arguments memoryUsage {Env}.
Arguments isoDate {Env}.

Section Server.
(** The arguments of a tool call (decoded JSON) and the part of the
    process state the tool bodies work on (the file system). *)
Variable Args : Type.
Variable Env : Type.

(** The tool bodies: external collaborators, each resolving to a
    result or rejecting. *)
Variable calculate : Args -> Env -> (ToolResult + Thrown) * Env.
Variable readFile : Args -> Env -> (ToolResult + Thrown) * Env.
Variable writeFile : Args -> Env -> (ToolResult + Thrown) * Env.
Variable listDirectory : Args -> Env -> (ToolResult + Thrown) * Env.

(** What the resources are served from. *)
Variable sources : ResourceSources Env.

(** The state of the process: the successive readings of
    [Date.now()] and how many were consumed, the map captured by the
    rate-limit stage, the console, the entries of the [Logger] (level
    and message) and the environment of the tools. *)
Record World : Type := mkWorld {
  clock : nat -> Z;
  ticks : nat;
  requests : gmap string (list Z);
  console : list ConsoleEntry;
  logs : list (Level * string);
  env : Env;
}.

Definition set_ticks (n : nat) (w : World) : World :=
  mkWorld (clock w) n (requests w) (console w) (logs w) (env w).
Definition set_requests (r : gmap string (list Z)) (w : World) : World :=
  mkWorld (clock w) (ticks w) r (console w) (logs w) (env w).
Definition set_console (c : list ConsoleEntry) (w : World) : World :=
  mkWorld (clock w) (ticks w) (requests w) c (logs w) (env w).
Definition set_logs (l : list (Level * string)) (w : World) : World :=
  mkWorld (clock w) (ticks w) (requests w) (console w) l (env w).
Definition set_env (e : Env) (w : World) : World :=
  mkWorld (clock w) (ticks w) (requests w) (console w) (logs w) e.

Inductive Params : Type :=
| NoParams
| CallToolParams (name : string) (arguments : Args)
| ReadResourceParams (uri : string).

Definition Stage : Type :=
  MiddlewareFunction World Response (MiddlewareContext Params).

(** [Date.now()] *)
Definition dateNow (k : Z -> Script World Response) : Script World Response :=
  GetState (fun w => SetState (set_ticks (S (ticks w)) w) (k (clock w (ticks w)))).

(** [console.log] and [console.error] *)
Definition consoleWrite (entry : ConsoleEntry) (k : Script World Response)
    : Script World Response :=
  GetState (fun w => SetState (set_console (console w ++ [entry]) w) k).

(** [loggingMiddleware]: the [try] around [await next()] sees both
    outcomes, writes to the console and hands the outcome on. *)
Definition loggingMiddleware : Stage :=
  fun context =>
    dateNow (fun start =>
    consoleWrite (Starting (timestamp context) (method context))
      (AwaitNext (fun o =>
         match o with
         | inl result =>
             dateNow (fun finish =>
             let duration := finish - start in
             consoleWrite (Completed (timestamp context) (method context) duration)
               (Return result))
         | inr error =>
             dateNow (fun finish =>
             let duration := finish - start in
             consoleWrite (Failed (timestamp context) (method context) duration error)
               (Throw error))
         end))).

(** [rateLimitMiddleware]: [requests] is the map of the closure, the
    client identifier is the constant of line 49. *)
Definition rateLimitMiddleware (requestsPerMinute : Z) : Stage :=
  fun context =>
    dateNow (fun now =>
    let clientId := "default" in
    GetState (fun w =>
      match checkAndRecord requestsPerMinute clientId now (requests w) with
      | (Rejected, requests') =>
          SetState (set_requests requests' w)
            (Throw (ErrorObj "Rate limit exceeded"))
      | (Accepted, requests') =>
          SetState (set_requests requests' w) (AwaitNext Finish)
      end)).

(** [setupMiddleware] *)
Definition setupMiddleware (config : ServerConfig) : list Stage :=
  [loggingMiddleware; rateLimitMiddleware (rateLimitRpm config)].

(** [Logger.log] with [maxLogs = 1000], then the console line of
    [Logger.info] and [Logger.error]. *)
Definition logger_log (level : Level) (message : string) (w : World) : World :=
  let pushed := logs w ++ [(level, message)] in
  let kept :=
    if decide (1000 < length pushed)%nat
    then drop (length pushed - 1000)%nat pushed
    else pushed in
  set_console (console w ++ [LoggerLine level message]) (set_logs kept w).

Definition logger_info : string -> World -> World := logger_log INFO.
Definition logger_error : string -> World -> World := logger_log ERROR.

(** A tool body run on the environment of the process. *)
Definition onEnv (body : Env -> (ToolResult + Thrown) * Env) (w : World)
    : (ToolResult + Thrown) * World :=
  let '(r, e) := body (env w) in (r, set_env e w).

(** [tool.calculate(args)] and the like: calling a method that the
    object does not have throws a [TypeError]. *)
Definition callMethod (tool : Tool) (methodName : string) (args : Args)
    : World -> (ToolResult + Thrown) * World :=
  let missing w :=
    (inr (ErrorObj ("tool." +:+ methodName +:+ " is not a function")), w) in
  match tool with
  | CalculatorTool =>
      if decide (methodName = "calculate") then onEnv (calculate args)
      else missing
  | FileManagerTool =>
      if decide (methodName = "readFile") then onEnv (readFile args)
      else if decide (methodName = "writeFile") then onEnv (writeFile args)
      else if decide (methodName = "listDirectory") then onEnv (listDirectory args)
      else missing
  end.

(** The [try] block of the tools/call handler (lines 139 to 165). *)
Definition callToolTry (tools : JsMap.t Tool) (name : string) (args : Args)
    (w : World) : (ToolResult + Thrown) * World :=
  match JsMap.get name tools with
  | None => (inr (ErrorObj ("Tool '" +:+ name +:+ "' not found")), w)
  | Some tool =>
      let called :=
        if decide (name = "calculate") then callMethod tool "calculate" args w
        else if decide (name = "read_file") then callMethod tool "readFile" args w
        else if decide (name = "write_file") then callMethod tool "writeFile" args w
        else if decide (name = "list_directory") then callMethod tool "listDirectory" args w
        else (inr (ErrorObj ("Unknown tool method: " +:+ name)), w) in
      match called with
      | (inl result, w') =>
          (inl result, logger_info ("Tool " +:+ name +:+ " executed successfully") w')
      | (inr error, w') => (inr error, w')
      end
  end.

(** [error instanceof Error ? error.message : 'Unknown error'] *)
Definition errorMessageOf (error : Thrown) : string :=
  match error with
  | ErrorObj message => message
  | NonError => "Unknown error"
  end.

(** The result built in the [catch] block (lines 170 to 178). *)
Definition errorResult (errorMessage : string) : ToolResult :=
  mkToolResult [textPart ("Error: " +:+ errorMessage)] (Some true).

(** The terminal handler of tools/call (lines 133 to 180). *)
Definition callToolHandler (tools : JsMap.t Tool) (name : string) (args : Args)
    (w : World) : Outcome Response * World :=
  let w := logger_info ("Executing tool: " +:+ name) w in
  match callToolTry tools name args w with
  | (inl result, w') => (inl (CallToolResult result), w')
  | (inr error, w') =>
      let errorMessage := errorMessageOf error in
      (inl (CallToolResult (errorResult errorMessage)),
       logger_error ("Tool execution failed: " +:+ errorMessage) w')
  end.

(** The terminal handler of tools/list (lines 115 to 125): one
    definition per binding of the map, in insertion order.  Both
    classes have [getDefinition], so the test of line 119 holds. *)
Definition listToolsHandler (tools : JsMap.t Tool) (w : World)
    : Outcome Response * World :=
  let toolDefinitions :=
    foldl (fun acc '(name, tool) => acc ++ [getDefinition tool]) [] tools in
  (inl (ToolsList toolDefinitions), w).

(** The terminal handler of resources/list. *)
Definition listResourcesHandler (resources : JsMap.t Resource) (w : World)
    : Outcome Response * World :=
  (inl (ResourcesList (JsMap.values resources)), w).

(** The terminal handler of resources/read (lines 199 to 232).  The
    health resource is a call of [getHealthStatus()], which reads
    [Date.now()]. *)
Definition readResourceHandler (resources : JsMap.t Resource) (uri : string)
    (w : World) : Outcome Response * World :=
  match JsMap.get uri resources with
  | None => (inr (ErrorObj ("Resource not found: " +:+ uri)), w)
  | Some resource =>
      let '(content, w) :=
        if decide (uri = "config://server.json") then (configJson sources, w)
        else if decide (uri = "logs://recent.txt") then (recentLogs sources (logs w), w)
        else if decide (uri = "health://status.json") then
          let now := clock w (ticks w) in
          let w := set_ticks (S (ticks w)) w in
          (healthJson sources
             (getHealthStatus (healthChecker sources) now (isoDate sources (env w))
                              (memoryUsage sources (env w))),
           w)
        else ("Content for " +:+ uri, w) in
      let mimeType :=
        match res_mimeType resource with
        | Some (String c rest) => String c rest
        | _ => "text/plain"
        end in
      (inl (ResourceContents uri mimeType content), w)
  end.

(** The server object: its configuration and its two maps. *)
Record MCPTypeScriptServer : Type := mkServer {
  config : ServerConfig;
  tools : JsMap.t Tool;
  resources : JsMap.t Resource;
}.

(** The constructor. *)
Definition newServer (config : ServerConfig) : MCPTypeScriptServer :=
  mkServer config (initializeTools config) initializeResources.

(** The four request handlers installed by [setupHandlers]; [now] is
    the [new Date()] of the context.  What they resolve to, or reject
    with, is what the transport layer receives. *)
Definition handleListTools (this : MCPTypeScriptServer) (now : Z) (w : World)
    : option (Outcome Response * Exec World) :=
  execute (setupMiddleware (config this))
          (mkContext "tools/list" NoParams now)
          (listToolsHandler (tools this)) w.

Definition handleCallTool (this : MCPTypeScriptServer) (now : Z)
    (name : string) (args : Args) (w : World)
    : option (Outcome Response * Exec World) :=
  execute (setupMiddleware (config this))
          (mkContext "tools/call" (CallToolParams name args) now)
          (callToolHandler (tools this) name args) w.

Definition handleListResources (this : MCPTypeScriptServer) (now : Z) (w : World)
    : option (Outcome Response * Exec World) :=
  execute (setupMiddleware (config this))
          (mkContext "resources/list" NoParams now)
          (listResourcesHandler (resources this)) w.

Definition handleReadResource (this : MCPTypeScriptServer) (now : Z)
    (uri : string) (w : World) : option (Outcome Response * Exec World) :=
  execute (setupMiddleware (config this))
          (mkContext "resources/read" (ReadResourceParams uri) now)
          (readResourceHandler (resources this) uri) w.

(** The world in which the terminal handler of an admitted request
    starts: two readings of the clock consumed, the line of the
    logging stage on the console, the admission recorded. *)
Definition acceptedWorld (requestsPerMinute : Z) (context : MiddlewareContext Params)
    (w : World) : World :=
  let now := clock w (S (ticks w)) in
  set_requests (checkAndRecord requestsPerMinute "default" now (requests w)).2
    (set_ticks (S (S (ticks w)))
       (set_console (console w ++ [Starting (timestamp context) (method context)]) w)).
End Server.

Arguments mkWorld {Env}.
Arguments clock {Env}.
Arguments ticks {Env}.
Arguments requests {Env}.
Arguments console {Env}.
Arguments logs {Env}.
Arguments env {Env}.
Arguments set_ticks {Env}.
Arguments set_requests {Env}.
Arguments set_console {Env}.
Arguments set_logs {Env}.
Arguments set_env {Env}.
Arguments NoParams {Args}.
Arguments CallToolParams {Args}.
Arguments ReadResourceParams {Args}.
Arguments dateNow {Env}.
Arguments consoleWrite {Env}.
Arguments loggingMiddleware {Args Env}.
Arguments rateLimitMiddleware {Args Env}.
Arguments setupMiddleware {Args Env}.
Arguments logger_log {Env}.
Arguments logger_info {Env}.
Arguments logger_error {Env}.
Arguments onEnv {Env}.
Arguments callMethod {Args Env}.
Arguments callToolTry {Args Env}.
Arguments callToolHandler {Args Env}.
Arguments listToolsHandler {Env}.
Arguments listResourcesHandler {Env}.
Arguments readResourceHandler {Env}.
Arguments handleCallTool {Args Env}.
Arguments acceptedWorld {Args Env}.

(** The tool body that [initializeTools] and the [switch] of the
    tools/call handler bind to a name. *)
Definition handlerOf {A : Type} (calculate readFile writeFile listDirectory : A)
    (name : string) : option A :=
  if decide (name = "calculate") then Some calculate
  else if decide (name = "read_file") then Some readFile
  else if decide (name = "write_file") then Some writeFile
  else if decide (name = "list_directory") then Some listDirectory
  else None.

(** A world for examples: a clock that stands at [now], the given
    map of the rate limiter, nothing logged. *)
Definition worldAt (now : Z) (requests : gmap string (list Z)) : World unit :=
  mkWorld (fun _ => now) 0 requests [] [] tt.

(** Sources for examples: a health checker created at 0 and a process
    that uses no memory. *)
Definition plainSources : ResourceSources unit :=
  mkResourceSources "{}" (fun _ => "") (fun _ => "{}") (newHealthChecker 0)
                    (fun _ => mkMemoryUsage 0 0) (fun _ => "").

(** A tool body for examples: answers with its argument. *)
Definition echo (args : string) (e : unit) : (ToolResult + Thrown) * unit :=
  (inl (mkToolResult [textPart args] None), e).

(** ** Vocabulary of the statements *)

Section Vocabulary.
Context {W : Type}.

(** An event of a stage at position [k] or before. *)
Definition UpTo (k : nat) (e : Event) : Prop :=
  exists j, e = StageRan j /\ (j <= k)%nat.

(** From [st] to [st'] only stages up to position [k] were invoked,
    and [index] has not passed [k + 1]. *)
Definition Within (k : nat) (st st' : Exec W) : Prop :=
  (index st' <= S k)%nat /\
  exists ext, trace st' = trace st ++ ext /\ Forall (UpTo k) ext.
End Vocabulary.

(** [String.prototype.includes] *)
Fixpoint includes (needle s : string) : bool :=
  String.prefix needle s ||
  match s with
  | EmptyString => false
  | String _ rest => includes needle rest
  end.

(** Stages for a chain over a world that is a list of notes: one that
    awaits [next()] twice, one that returns without calling it, a
    canary that leaves a note, and one that awaits [next()] and returns
    something else. *)
Module Canary.
Definition twice : MiddlewareFunction (list string) string unit :=
  fun _ => AwaitNext (fun _ => AwaitNext Finish).

Definition stop : MiddlewareFunction (list string) string unit :=
  fun _ => Return "stopped".

Definition canary : MiddlewareFunction (list string) string unit :=
  fun _ => GetState (fun w => SetState (w ++ ["canary ran"]) (Return "canary")).

Definition terminal (w : list string) : Outcome string * list string :=
  (inl "handled", w ++ ["handler ran"]).

Definition rename : MiddlewareFunction (list string) string unit :=
  fun _ => AwaitNext (fun _ => Return "renamed").
End Canary.

(** ** The other stages of [src/middleware/index.ts] *)

(** [MiddlewareManager.use] *)
Definition use {W V Ctx : Type} (middleware : MiddlewareFunction W V Ctx)
    (middlewares : list (MiddlewareFunction W V Ctx))
    : list (MiddlewareFunction W V Ctx) :=
  middlewares ++ [middleware].

(** [validationMiddleware]; [truthy] tells whether [context.params]
    passes the test [!context.params]. *)
Definition validationMiddleware {W V P : Type} (truthy : P -> bool)
    : MiddlewareFunction W V (MiddlewareContext P) :=
  fun context =>
    if negb (truthy (params context)) then Throw (ErrorObj "Missing parameters")
    else AwaitNext Finish.

(** Truthiness of a value that is a string or [undefined]. *)
Definition truthyString (s : option string) : bool :=
  match s with
  | Some (String _ _) => true
  | _ => false
  end.

(** [authenticationMiddleware(apiKey)], for the value of
    [process.env.MCP_API_KEY] when the request arrives. *)
Definition authenticationMiddleware {W V Ctx : Type}
    (MCP_API_KEY : option string) (apiKey : option string)
    : MiddlewareFunction W V Ctx :=
  fun context =>
    if truthyString apiKey && truthyString MCP_API_KEY then
      if negb (bool_decide (apiKey = MCP_API_KEY))
      then Throw (ErrorObj "Unauthorized: Invalid API key")
      else AwaitNext Finish
    else AwaitNext Finish.

(** ** Requests in sequence *)

Definition isHandlerRan (e : Event) : bool :=
  match e with
  | HandlerRan => true
  | StageRan _ => false
  end.

(** What the ghost trace of a request says of its admission. *)
Definition verdictOf (events : list Event) : Admission :=
  if existsb isHandlerRan events then Accepted else Rejected.

Section Requests.
Context {Args Env : Type}.
Variables calculate readFile writeFile listDirectory :
  Args -> Env -> (ToolResult + Thrown) * Env.
Variable sources : ResourceSources Env.

(** The line with which the logging stage ends a request. *)
Definition closingLine (context : MiddlewareContext (Params Args)) (duration : Z)
    (o : Outcome Response) : ConsoleEntry :=
  match o with
  | inl _ => Completed (timestamp context) (method context) duration
  | inr error => Failed (timestamp context) (method context) duration error
  end.

(** The world after the logging stage has ended a request that began
    at the reading [start], [w] being the world it got back from
    [next()]. *)
Definition closedWorld (context : MiddlewareContext (Params Args)) (start : Z)
    (o : Outcome Response) (w : World Env) : World Env :=
  set_console
    (console w ++ [closingLine context (clock w (ticks w) - start) o])
    (set_ticks (S (ticks w)) w).

(** A decoded request, and the handler that [setRequestHandler] has
    installed for its schema. *)
Inductive Request : Type :=
| ListToolsRequest
| CallToolRequest (name : string) (arguments : Args)
| ListResourcesRequest
| ReadResourceRequest (uri : string).

Definition contextOf (request : Request) (now : Z) : MiddlewareContext (Params Args) :=
  match request with
  | ListToolsRequest => mkContext "tools/list" NoParams now
  | CallToolRequest name args => mkContext "tools/call" (CallToolParams name args) now
  | ListResourcesRequest => mkContext "resources/list" NoParams now
  | ReadResourceRequest uri => mkContext "resources/read" (ReadResourceParams uri) now
  end.

Definition terminalOf (this : MCPTypeScriptServer) (request : Request)
    : World Env -> Outcome Response * World Env :=
  match request with
  | ListToolsRequest => listToolsHandler (tools this)
  | CallToolRequest name args =>
      callToolHandler calculate readFile writeFile listDirectory (tools this) name args
  | ListResourcesRequest => listResourcesHandler (resources this)
  | ReadResourceRequest uri => readResourceHandler sources (resources this) uri
  end.

Definition handleRequest (this : MCPTypeScriptServer) (now : Z) (request : Request)
    (w : World Env) : option (Outcome Response * Exec (World Env)) :=
  match request with
  | ListToolsRequest => handleListTools Args Env this now w
  | CallToolRequest name args =>
      handleCallTool calculate readFile writeFile listDirectory this now name args w
  | ListResourcesRequest => handleListResources Args Env this now w
  | ReadResourceRequest uri => handleReadResource Args Env sources this now uri w
  end.

(** Requests handled one after the other, each with the [new Date()]
    of its context: what each ended with, the ghost trace of its chain,
    and the world after the last. *)
Fixpoint serve (this : MCPTypeScriptServer) (incoming : list (Z * Request))
    (w : World Env) : list (Outcome Response * list Event) * World Env :=
  match incoming with
  | [] => ([], w)
  | (now, request) :: later =>
      match handleRequest this now request w with
      | Some (o, st) =>
          let '(answers, final) := serve this later (world st) in
          ((o, trace st) :: answers, final)
      | None => ([], w)
      end
  end.

(** Whether the terminal handler of a request reads the clock: only
    a read of the health resource, when it is registered, does. *)
Definition readsClock (this : MCPTypeScriptServer) (request : Request) : bool :=
  match request with
  | ReadResourceRequest uri =>
      bool_decide (uri = "health://status.json")
      && bool_decide (is_Some (JsMap.get uri (resources this)))
  | _ => false
  end.

(** How many readings of the clock a request takes: two by the logging
    stage, one by the rate-limit stage between them, and one more when
    its terminal handler is reached and reads the clock. *)
Definition clockReadings (this : MCPTypeScriptServer) (request : Request)
    (verdict : Admission) : nat :=
  match verdict with
  | Accepted => if readsClock this request then 4 else 3
  | Rejected => 3
  end.

(** The readings at which the rate-limit stage checks the requests of
    a sequence that starts at tick [t]: the second reading of each. *)
Fixpoint checkTimes (this : MCPTypeScriptServer) (clock : nat -> Z) (t : nat)
    (incoming : list (Z * Request)) (requests : gmap string (list Z)) : list Z :=
  match incoming with
  | [] => []
  | (_, request) :: later =>
      let time := clock (S t) in
      let '(verdict, requests') :=
        checkAndRecord (rateLimitRpm (config this)) "default" time requests in
      time :: checkTimes this clock (t + clockReadings this request verdict)%nat
                         later requests'
  end.
End Requests.

Arguments ListToolsRequest {Args}.
Arguments CallToolRequest {Args}.
Arguments ListResourcesRequest {Args}.
Arguments ReadResourceRequest {Args}.
Arguments closingLine {Args}.
Arguments closedWorld {Args Env}.
Arguments contextOf {Args}.
Arguments terminalOf {Args Env}.
Arguments handleRequest {Args Env}.
Arguments serve {Args Env}.
Arguments readsClock {Args}.
Arguments clockReadings {Args}.
Arguments checkTimes {Args}.

(** Stages that leave a note and hand on what [next()] gives. *)
Module Notes.
Definition note (text : string) : MiddlewareFunction (list string) string unit :=
  fun _ => GetState (fun w => SetState (w ++ [text]) (AwaitNext Finish)).

Definition terminal (w : list string) : Outcome string * list string :=
  (inl "handled", w ++ ["handler ran"]).
End Notes.

(** ** What the tool methods are called with

    The tools/call handler passes [request.params.arguments] on as it
    is: [undefined] when the request has none, [null], or a value
    decoded from JSON.  No property of [undefined] or [null] can be
    read; a value is given by the properties that the method reads. *)

Inductive Nullish : Type := JsUndefined | JsNull.

Inductive ToolArgs (P : Type) : Type :=
| NullishArgs (value : Nullish)
| ArgsWith (properties : P).
Arguments NullishArgs {P}.
Arguments ArgsWith {P}.

(** ** The calculator ([src/tools/calculator.ts])

    Strings are sequences of bytes, a JavaScript string being read in
    UTF-8; the characters that the calculator tells apart are ASCII. *)

Module Calculator.

(** The class [[0-9+\-*/.() ]] of the sanitizing expression. *)
Definition allowedChar (c : Ascii.ascii) : bool :=
  let n := Ascii.nat_of_ascii c in
  ((48 <=? n)%nat && (n <=? 57)%nat)
  || Ascii.eqb c "+"%char || Ascii.eqb c "-"%char || Ascii.eqb c "*"%char || Ascii.eqb c "/"%char
  || Ascii.eqb c "."%char || Ascii.eqb c "("%char || Ascii.eqb c ")"%char || Ascii.eqb c " "%char.

(** [expression.replace(/[^0-9+\-*/.() ]/g, '')] *)
Fixpoint sanitize (expression : string) : string :=
  match expression with
  | EmptyString => EmptyString
  | String c rest =>
      if allowedChar c then String c (sanitize rest) else sanitize rest
  end.

(** The loop of [isBalancedParentheses], from a value of [count]. *)
Fixpoint balancedFrom (count : Z) (expression : string) : bool :=
  match expression with
  | EmptyString => bool_decide (count = 0)
  | String char rest =>
      let count := if Ascii.eqb char "("%char then count + 1 else count in
      let count := if Ascii.eqb char ")"%char then count - 1 else count in
      if bool_decide (count < 0) then false else balancedFrom count rest
  end.

Definition isBalancedParentheses (expression : string) : bool :=
  balancedFrom 0 expression.

(** How often a character occurs in a string. *)
Fixpoint occurrences (c : Ascii.ascii) (s : string) : Z :=
  match s with
  | EmptyString => 0
  | String c' rest => (if Ascii.eqb c' c then 1 else 0) + occurrences c rest
  end.

(** [validateExpression]; the argument is [None] when it is not a
    string. *)
Definition validateExpression (expression : option string) : bool * option string :=
  match expression with
  | None | Some EmptyString => (false, Some "Expression must be a non-empty string")
  | Some expression =>
      let sanitized := sanitize expression in
      if negb (String.eqb sanitized expression)
      then (false, Some "Expression contains invalid characters")
      else if negb (isBalancedParentheses sanitized)
      then (false, Some "Unbalanced parentheses")
      else (true, None)
  end.

Section Evaluation.
(** JavaScript numbers, with [isFinite] and the conversion to a string,
    and what calling [new Function(source)] gives: a number, another
    value, or a failure. *)
Variable Num : Type.
Variable isFinite : Num -> bool.
Variable numberToString : Num -> string.

Inductive JsValue : Type :=
| JsNumber (n : Num)
| JsOther.

Variable runFunction : string -> JsValue + Thrown.

(** The message of the [TypeError] that the engine throws when a
    property is destructured from [undefined] or [null] (V8: Cannot
    destructure property 'expression' of 'args' as it is undefined.) *)
Variable destructureMessage : Nullish -> string.

(** [evaluateExpression]: the failures of the [try] block, its own
    included, are thrown again by the [catch] with a prefix. *)
Definition evaluateExpression (expression : string) : Num + Thrown :=
  let attempt :=
    match runFunction ("return (" +:+ expression +:+ ")") with
    | inl (JsNumber result) =>
        if negb (isFinite result)
        then inr (ErrorObj "Result is not a finite number (division by zero or overflow)")
        else inl result
    | inl JsOther => inr (ErrorObj "Expression did not evaluate to a number")
    | inr error => inr error
    end in
  match attempt with
  | inl result => inl result
  | inr (ErrorObj message) =>
      inr (ErrorObj ("Failed to evaluate expression: " +:+ message))
  | inr NonError => inr (ErrorObj "Failed to evaluate expression")
  end.

(** [calculate], with the ghost list of the texts that were handed to
    [evaluateExpression].  The property [expression] of the arguments
    is [None] when it is not a string, which it is not when it is
    absent; the destructuring of line 23 stands inside the [try]. *)
Definition calculate (args : ToolArgs (option string)) : ToolResult * list string :=
  let attempt : (string + Thrown) * list string :=
    match args with
    | NullishArgs value => (inr (ErrorObj (destructureMessage value)), [])
    | ArgsWith None | ArgsWith (Some EmptyString) =>
        (inr (ErrorObj "Expression must be a non-empty string"), [])
    | ArgsWith (Some expression) =>
        let sanitized := sanitize expression in
        if negb (String.eqb sanitized expression)
        then (inr (ErrorObj "Expression contains invalid characters"), [])
        else if (String.length sanitized =? 0)%nat
        then (inr (ErrorObj "Expression cannot be empty after sanitization"), [])
        else if negb (isBalancedParentheses sanitized)
        then (inr (ErrorObj "Unbalanced parentheses in expression"), [])
        else
          match evaluateExpression sanitized with
          | inl result =>
              (inl ("Result: " +:+ expression +:+ " = " +:+ numberToString result),
               [sanitized])
          | inr error => (inr error, [sanitized])
          end
    end in
  match attempt with
  | (inl text, evaluated) => (mkToolResult [textPart text] None, evaluated)
  | (inr error, evaluated) =>
      let message :=
        match error with
        | ErrorObj message => message
        | NonError => "Calculation failed"
        end in
      (mkToolResult [textPart ("Error: " +:+ message)] (Some true), evaluated)
  end.
End Evaluation.

Arguments JsNumber {Num}.
Arguments JsOther {Num}.
Arguments evaluateExpression {Num}.
Arguments calculate {Num}.

End Calculator.

(** ** The file manager ([src/tools/fileManager.ts]) *)

Module FileManager.

Definition newline : string := String (Ascii.ascii_of_nat 10) EmptyString.

Definition maxFileSize : Z := 10 * 1024 * 1024.

(** [handleError] *)
Definition handleError (error : Thrown) (operation : string) : ToolResult :=
  let message :=
    match error with
    | ErrorObj message => message
    | NonError => "Unknown error occurred"
    end in
  mkToolResult [textPart ("Error " +:+ operation +:+ ": " +:+ message)] (Some true).

Record Stats : Type := mkStats {
  size : Z;
  mtime : string;
  isDirectory : bool;
}.

(** A property of the arguments as the file manager uses it: a
    string, or another value ([undefined] when the property is absent),
    of which the code uses the truthiness and the conversion to a
    string inside a template, which throws for an object without a
    usable [toString]. *)
Inductive Field : Type :=
| FString (s : string)
| FOther (truthy : bool) (shown : string + Thrown).

Record FileProps : Type := mkFileProps {
  args_path : Field;
  args_content : Field;
}.

(** [!value] is false *)
Definition truthy (value : Field) : bool :=
  match value with
  | FString s => negb (String.eqb s "")
  | FOther truthy _ => truthy
  end.

(** The conversion of [`${value}`] *)
Definition shown (value : Field) : string + Thrown :=
  match value with
  | FString s => inl s
  | FOther _ text => text
  end.

(** The [catch] blocks: the operation is named with [args.path], read
    and converted before [handleError] is called. *)
Definition caught (error : Thrown) (operation : string) (path : Field)
    : ToolResult + Thrown :=
  match shown path with
  | inl text => inl (handleError error (operation +:+ text))
  | inr thrown => inr thrown
  end.

Section FileSystem.
(** The file system and the functions of [path] and [fs] that the tool
    calls; [dataDir] and [tempDir] are the two allowed paths that the
    constructor resolves. *)
Variable Fs : Type.
Variable resolve : string -> string.
Variable dirname : string -> string.
Variables dataDir tempDir : string.
Variable stat : string -> Fs -> Stats + Thrown.
Variable readFileUtf8 : string -> Fs -> string + Thrown.
Variable mkdir : string -> Fs -> (unit + Thrown) * Fs.
Variable writeFileUtf8 : string -> string -> Fs -> (unit + Thrown) * Fs.

(** The message of the [TypeError] that the engine throws when a
    property of [undefined] or [null] is read (V8: Cannot read
    properties of undefined (reading 'path')), and what
    [Buffer.byteLength] throws for a value decoded from JSON that is
    not a string (a [TypeError] that names the value). *)
Variable propertyOfNullish : Nullish -> string.
Variable byteLengthError : Field -> Thrown.

Definition allowedPaths : list string := [dataDir; tempDir].

(** [validatePath], for an argument that is a string. *)
Definition validatePath (userPath : string) : string + Thrown :=
  if String.eqb userPath "" then inr (ErrorObj "Path must be a non-empty string")
  else
    let resolvedPath := resolve userPath in
    let isAllowed :=
      existsb (fun allowedPath => String.prefix allowedPath resolvedPath) allowedPaths in
    if negb isAllowed
    then inr (ErrorObj ("Access denied: Path " +:+ userPath
                        +:+ " is not in allowed directories"))
    else inl resolvedPath.

(** [readFile].  With [undefined] or [null] for arguments the
    destructuring of line 58 throws, and so does [args.path] in the
    [catch] block: the method rejects with the second [TypeError].
    [validatePath] refuses a path that is not a string with the
    message it has for the empty string. *)
Definition readFile (args : ToolArgs FileProps) (fs : Fs) : ToolResult + Thrown :=
  match args with
  | NullishArgs value => inr (ErrorObj (propertyOfNullish value))
  | ArgsWith properties =>
      let attempt : ToolResult + Thrown :=
        match args_path properties with
        | FOther _ _ => inr (ErrorObj "Path must be a non-empty string")
        | FString path =>
            match validatePath path with
            | inr error => inr error
            | inl safePath =>
                match stat safePath fs with
                | inr error => inr error
                | inl stats =>
                    if bool_decide (maxFileSize < size stats)
                    then inr (ErrorObj ("File too large: " +:+ pretty (size stats)
                                        +:+ " bytes (max: " +:+ pretty maxFileSize
                                        +:+ " bytes)"))
                    else
                      match readFileUtf8 safePath fs with
                      | inr error => inr error
                      | inl content =>
                          inl (mkToolResult
                                 [textPart ("File: " +:+ path +:+ newline
                                            +:+ "Size: " +:+ pretty (size stats)
                                            +:+ " bytes" +:+ newline
                                            +:+ "Modified: " +:+ mtime stats
                                            +:+ newline +:+ newline
                                            +:+ "Content:" +:+ newline +:+ content)]
                                 None)
                      end
                end
            end
        end in
      match attempt with
      | inl result => inl result
      | inr error => caught error "reading file: " (args_path properties)
      end
  end.

(** [writeFile]; the byte length of a content that is a string is the
    length of the string. *)
Definition writeFile (args : ToolArgs FileProps) (fs : Fs)
    : (ToolResult + Thrown) * Fs :=
  match args with
  | NullishArgs value => (inr (ErrorObj (propertyOfNullish value)), fs)
  | ArgsWith properties =>
      let attempt : (ToolResult + Thrown) * Fs :=
        if negb (truthy (args_content properties))
        then (inr (ErrorObj "Content is required for write operation"), fs)
        else
          match args_path properties with
          | FOther _ _ => (inr (ErrorObj "Path must be a non-empty string"), fs)
          | FString path =>
              match validatePath path with
              | inr error => (inr error, fs)
              | inl safePath =>
                  match args_content properties with
                  | FOther _ _ => (inr (byteLengthError (args_content properties)), fs)
                  | FString content =>
                      let contentSize := Z.of_nat (String.length content) in
                      if bool_decide (maxFileSize < contentSize)
                      then (inr (ErrorObj ("Content too large: " +:+ pretty contentSize
                                           +:+ " bytes (max: " +:+ pretty maxFileSize
                                           +:+ " bytes)")),
                            fs)
                      else
                        match mkdir (dirname safePath) fs with
                        | (inr error, fs1) => (inr error, fs1)
                        | (inl _, fs1) =>
                            match writeFileUtf8 safePath content fs1 with
                            | (inr error, fs2) => (inr error, fs2)
                            | (inl _, fs2) =>
                                (inl (mkToolResult
                                        [textPart ("Successfully wrote "
                                                   +:+ pretty contentSize
                                                   +:+ " bytes to " +:+ path)]
                                        None),
                                 fs2)
                            end
                        end
                  end
              end
          end in
      match attempt with
      | (inl result, fs') => (inl result, fs')
      | (inr error, fs') =>
          (caught error "writing file: " (args_path properties), fs')
      end
  end.
End FileSystem.

End FileManager.

(** ** The monitoring loop of the health checker ([src/health.ts]) *)

Module Monitor.

(** The interval timers of the process: the identifiers of those that
    are running, and the identifier that [setInterval] hands out
    next. *)
Record Timers : Type := mkTimers {
  running : gset nat;
  upcoming : nat;
}.

Definition setInterval (t : Timers) : nat * Timers :=
  (upcoming t, mkTimers ({[upcoming t]} ∪ running t) (S (upcoming t))).

Definition clearInterval (id : nat) (t : Timers) : Timers :=
  mkTimers (running t ∖ {[id]}) (upcoming t).

(** Identifiers are handed out in increasing order. *)
Definition wellFormed (t : Timers) : Prop :=
  forall id, id ∈ running t -> (id < upcoming t)%nat.

(** The field [healthCheckInterval] of the checker, with the timers. *)
Record State : Type := mkState {
  healthCheckInterval : option nat;
  timers : Timers;
}.

(** [startMonitoring] *)
Definition startMonitoring (s : State) : State :=
  let '(id, t) := setInterval (timers s) in
  mkState (Some id) t.

(** [stopMonitoring]: the field keeps the identifier. *)
Definition stopMonitoring (s : State) : State :=
  match healthCheckInterval s with
  | Some id => mkState (Some id) (clearInterval id (timers s))
  | None => s
  end.

(** What one run of the callback of the timer does. *)
Inductive Action : Type :=
| Warned (status : HealthStatus)
| CollectedGarbage
| LoggedCollection.

(** The callback, for the readings of the process at the tick and
    whether [global.gc] is there. *)
Definition tick (this : HealthChecker) (now : Z) (iso : string)
    (memUsage : MemoryUsage) (gcAvailable : bool) : list Action :=
  let snapshot := getHealthStatus this now iso memUsage in
  match status snapshot with
  | unhealthy =>
      Warned snapshot ::
      (if gcAvailable then [CollectedGarbage; LoggedCollection] else [])
  | healthy => []
  end.

End Monitor.

(** ** The logger ([src/utils/logger.ts]) *)

Module Logger.

Definition newline : string := String (Ascii.ascii_of_nat 10) EmptyString.

(** An entry, with the ISO form of its timestamp. *)
Record Entry : Type := mkEntry {
  level : Level;
  message : string;
  timestamp : string;
}.

Definition levelName (l : Level) : string :=
  match l with
  | INFO => "INFO"
  | ERROR => "ERROR"
  | WARN => "WARN"
  | DEBUG => "DEBUG"
  end.

(** [array.slice(start)] for an integer [start]: a negative one counts
    from the end. *)
Definition slice {A : Type} (start : Z) (l : list A) : list A :=
  let len := Z.of_nat (length l) in
  let from := if bool_decide (start < 0) then Z.max (len + start) 0
              else Z.min start len in
  drop (Z.to_nat from) l.

Definition formatEntry (log : Entry) : string :=
  "[" +:+ timestamp log +:+ "] " +:+ levelName (level log) +:+ ": " +:+ message log.

(** [getRecentLogs(count)]; the default of [count] is 50. *)
Definition getRecentLogs (count : Z) (logs : list Entry) : string :=
  String.concat newline (formatEntry <$> slice (- count) logs).

End Logger.

(** ** The cache ([src/utils/cache.ts]) *)

Module LRUCache.

(** [Map.prototype.delete] on the bindings of a map. *)
Fixpoint remove {A : Type} (key : string) (m : JsMap.t A) : JsMap.t A :=
  match m with
  | [] => []
  | (k, v) :: rest =>
      if decide (key = k) then rest else (k, v) :: remove key rest
  end.

Record Item (T : Type) : Type := mkItem {
  value : T;
  timestamp : Z;
}.
Arguments mkItem {T}.
Arguments value {T}.
Arguments timestamp {T}.

Record t (T : Type) : Type := mkCache {
  cache : JsMap.t (Item T);
  maxSize : Z;
  ttl : Z;
}.
Arguments mkCache {T}.
Arguments cache {T}.
Arguments maxSize {T}.
Arguments ttl {T}.

(** The constructor. *)
Definition create {T : Type} (maxSize ttl : Z) : t T := mkCache [] maxSize ttl.

Definition withCache {T : Type} (m : JsMap.t (Item T)) (c : t T) : t T :=
  mkCache m (maxSize c) (ttl c).

(** [get], at the reading [now] of the clock. *)
Definition get {T : Type} (key : string) (now : Z) (c : t T) : option T * t T :=
  match JsMap.get key (cache c) with
  | None => (None, c)
  | Some item =>
      if bool_decide (ttl c < now - timestamp item)
      then (None, withCache (remove key (cache c)) c)
      else (Some (value item),
            withCache (JsMap.set key item (remove key (cache c))) c)
  end.

(** [set], at the reading [now] of the clock. *)
Definition set {T : Type} (key : string) (v : T) (now : Z) (c : t T) : t T :=
  let m :=
    if bool_decide (is_Some (JsMap.get key (cache c)))
    then remove key (cache c)
    else if bool_decide (maxSize c <= Z.of_nat (JsMap.size (cache c)))
    then match JsMap.keys (cache c) with
         | firstKey :: _ => remove firstKey (cache c)
         | [] => cache c
         end
    else cache c in
  withCache (JsMap.set key (mkItem v now) m) c.

Definition clear {T : Type} (c : t T) : t T := withCache [] c.

Definition size {T : Type} (c : t T) : nat := JsMap.size (cache c).

(** [has] *)
Definition has {T : Type} (key : string) (now : Z) (c : t T) : bool * t T :=
  match JsMap.get key (cache c) with
  | None => (false, c)
  | Some item =>
      if bool_decide (ttl c < now - timestamp item)
      then (false, withCache (remove key (cache c)) c)
      else (true, c)
  end.

(** [delete] *)
Definition delete {T : Type} (key : string) (c : t T) : bool * t T :=
  (bool_decide (is_Some (JsMap.get key (cache c))),
   withCache (remove key (cache c)) c).

(** [cleanExpired]: deleting the entry at hand while iterating over a
    map goes on with the next one. *)
Definition cleanExpired {T : Type} (now : Z) (c : t T) : t T :=
  withCache
    (List.filter (fun '(key, item) => negb (bool_decide (ttl c < now - timestamp item)))
                 (cache c))
    c.

(** [keys] and [values] *)
Definition keys {T : Type} (now : Z) (c : t T) : list string * t T :=
  let c := cleanExpired now c in
  (JsMap.keys (cache c), c).

Definition values {T : Type} (now : Z) (c : t T) : list T * t T :=
  let c := cleanExpired now c in
  (value <$> JsMap.values (cache c), c).

End LRUCache.

(** * Properties *)

(** Settles which stage [this.middlewares[index]] is: leaves the
    equation to prove and rewrites the goal with it. *)
Ltac lookup_stage st m :=
  match goal with
  | |- context [@lookup ?K ?A ?M ?I (index st) ?l] =>
      let Hl := fresh "Hl" in
      assert (Hl : @lookup K A M I (index st) l = Some m); [|rewrite Hl; clear Hl]
  end.

(** ** The middleware chain *)

Section ChainFacts.
Context {W V Ctx : Type}.
Implicit Types (s : Script W V) (st : Exec W) (nxt : @Next W V).
Implicit Types (m : MiddlewareFunction W V Ctx) (o : Outcome V).

Lemma Within_refl k st : (index st <= S k)%nat -> Within k st st.
Proof.
  intros Hi. split; [done|]. exists []. by rewrite app_nil_r.
Qed.

(** A body that never awaits [next()] leaves [index] and the trace
    alone, whatever [next] is. *)
Lemma run_never nxt s :
  NeverCallsNext s ->
  forall st, exists o w, run nxt s st = Some (o, mkExec (index st) w (trace st)).
Proof.
  induction 1 as [v|e|k _ IH|w k _ IH]; intros st; simpl.
  - exists (inl v), (world st). by destruct st.
  - exists (inr e), (world st). by destruct st.
  - apply IH.
  - apply (IH (mkExec (index st) w (trace st))).
Qed.

Lemma run_yields nxt s o :
  Yields o s ->
  forall st, exists w, run nxt s st = Some (o, mkExec (index st) w (trace st)).
Proof.
  induction 1 as [v ->|e ->|k _ IH|w k _ IH]; intros st; simpl.
  - exists (world st). by destruct st.
  - exists (world st). by destruct st.
  - apply IH.
  - apply (IH (mkExec (index st) w (trace st))).
Qed.

Lemma Yields_never o s : Yields o s -> NeverCallsNext s.
Proof. induction 1; constructor; auto. Qed.

Lemma Relays_at_most_once s : Relays s -> CallsNextAtMostOnce s.
Proof.
  induction 1 as [k _ IH|w k _ IH|k Hk]; constructor; auto.
  intros o. eapply Yields_never, Hk.
Qed.

(** A body that awaits [next()] at most once stays within [k] when
    that one call does. *)
Lemma run_at_most_once k nxt s :
  CallsNextAtMostOnce s ->
  forall st,
    (index st <= S k)%nat ->
    (forall w, exists o st',
        nxt (mkExec (index st) w (trace st)) = Some (o, st') /\
        Within k (mkExec (index st) w (trace st)) st') ->
    exists o st', run nxt s st = Some (o, st') /\ Within k st st'.
Proof.
  induction 1 as [v|e|c _ IH|w c _ IH|c Hc]; intros st Hi Hnxt; simpl.
  - exists (inl v), st. split; [done|]. by apply Within_refl.
  - exists (inr e), st. split; [done|]. by apply Within_refl.
  - by apply IH.
  - destruct (IH (mkExec (index st) w (trace st)) Hi Hnxt) as (o & st' & Hr & Hw).
    by exists o, st'.
  - destruct (Hnxt (world st)) as (o & st1 & Hn & Hw).
    replace (mkExec (index st) (world st) (trace st)) with st in * by (by destruct st).
    rewrite Hn.
    destruct (run_never nxt (c o) (Hc o) st1) as (o' & w' & Hr).
    exists o', (mkExec (index st1) w' (trace st1)). split; [done|].
    destruct Hw as [Hi1 Hext]. by split.
Qed.

(** A body that relays ends with the outcome of its one call. *)
Lemma run_relays nxt s o :
  Relays s ->
  forall st,
    (forall w, exists st', nxt (mkExec (index st) w (trace st)) = Some (o, st')) ->
    exists st', run nxt s st = Some (o, st').
Proof.
  induction 1 as [c _ IH|w c _ IH|c Hc]; intros st Hnxt; simpl.
  - by apply IH.
  - by apply (IH (mkExec (index st) w (trace st))).
  - destruct (Hnxt (world st)) as (st1 & Hn).
    replace (mkExec (index st) (world st) (trace st)) with st in * by (by destruct st).
    rewrite Hn.
    destruct (run_yields nxt (c o) o (Hc o) st1) as (w' & Hr).
    eauto.
Qed.

(** A run of a body is its progress to the first [await next()],
    the call, and the run of what remains. *)
Lemma run_firstNext nxt s st :
  run nxt s st =
  match firstNext s (world st) with
  | Ended o w => Some (o, mkExec (index st) w (trace st))
  | Called k w =>
      match nxt (mkExec (index st) w (trace st)) with
      | Some (o, st') => run nxt (k o) st'
      | None => None
      end
  end.
Proof.
  revert st. induction s as [v|e|c IH|w c IH|c IH]; intros st; simpl.
  - by destruct st.
  - by destruct st.
  - apply IH.
  - apply (IH (mkExec (index st) w (trace st))).
  - by destruct st.
Qed.

Lemma firstNext_at_most_once s w k w1 :
  CallsNextAtMostOnce s -> firstNext s w = Called k w1 ->
  forall o, NeverCallsNext (k o).
Proof.
  intros Hs. revert w. induction Hs as [v|e|c _ IH|w' c _ IH|c Hc];
    intros w Hf; simpl in Hf; try discriminate; eauto.
  by injection Hf as <- _.
Qed.

Lemma firstNext_relays s w :
  Relays s -> exists k w1, firstNext s w = Called k w1 /\ forall o, Yields o (k o).
Proof.
  intros Hs. revert w. induction Hs as [c _ IH|w' c _ IH|c Hc]; intros w; simpl; eauto.
Qed.

(** A body that awaits [next()] on no path ends without awaiting it
    from every state. *)
Lemma withoutNext_never s w : NeverCallsNext s -> is_Some (withoutNext s w).
Proof.
  intros Hs. revert w. unfold withoutNext.
  induction Hs as [v|e|c _ IH|w' c _ IH]; intros w; simpl; eauto.
Qed.

Section ShortCircuit.
Variables (pre post : list (MiddlewareFunction W V Ctx)).
Variable stop : MiddlewareFunction W V Ctx.
Variable context : Ctx.
Variable handler : W -> Outcome V * W.

Lemma chain_not_done st :
  (index st <= length pre)%nat ->
  ~ (length (pre ++ stop :: post) <= index st)%nat.
Proof. rewrite length_app. simpl. lia. Qed.

Lemma next_short_circuit :
  Forall (fun m => CallsNextAtMostOnce (m context)) pre ->
  NeverCallsNext (stop context) ->
  forall depth st,
    (index st <= length pre)%nat -> (length pre - index st < depth)%nat ->
    exists o st',
      next (pre ++ stop :: post) context handler depth st = Some (o, st') /\
      Within (length pre) st st'.
Proof.
  intros Hpre Hstop. induction depth as [|d IH]; intros st Hi Hd; [lia|].
  simpl. destruct (decide (length (pre ++ stop :: post) <= index st)%nat) as [Hdone|_].
  { by apply chain_not_done in Hdone. }
  set (st1 := mkExec (S (index st)) (world st) (trace st ++ [StageRan (index st)])).
  assert (Hstep : Within (length pre) st st1).
  { split; [simpl; lia|]. exists [StageRan (index st)]. split; [done|].
    constructor; [|constructor]. by exists (index st). }
  assert (Hcompose : forall st', Within (length pre) st1 st' ->
                                 Within (length pre) st st').
  { intros st' [Hi' (ext & Ht & Hq)]. split; [done|].
    exists (StageRan (index st) :: ext). split.
    - rewrite Ht. simpl. by rewrite <- app_assoc.
    - constructor; [by exists (index st)|done]. }
  destruct (decide (index st = length pre)) as [Hk|Hk].
  - lookup_stage st stop.
    { rewrite Hk. by apply list_lookup_middle. }
    destruct (run_never (next (pre ++ stop :: post) context handler d)
                        (stop context) Hstop st1)
      as (o & w & Hr).
    rewrite Hr. eexists _, _. split; [done|].
    apply Hcompose. split; [simpl; lia|]. exists []. by rewrite app_nil_r.
  - assert (Hlt : (index st < length pre)%nat) by lia.
    destruct (lookup_lt_is_Some_2 pre (index st) Hlt) as [m Hm].
    lookup_stage st m.
    { by rewrite lookup_app_l. }
    pose proof (Forall_lookup_1 _ _ _ _ Hpre Hm) as Hm1. simpl in Hm1.
    destruct (run_at_most_once (length pre)
                (next (pre ++ stop :: post) context handler d)
                (m context) Hm1 st1) as (o & st' & Hr & Hw).
    + simpl. lia.
    + intros w. apply IH; simpl; lia.
    + rewrite Hr. eexists _, _. split; [done|]. by apply Hcompose.
Qed.

(** The stages up to [stop], when [stop] ends without awaiting
    [next()] in the state in which it is entered. *)
Lemma next_stops :
  Forall (fun m => CallsNextAtMostOnce (m context)) pre ->
  forall depth st,
    (index st <= length pre)%nat -> (length pre - index st < depth)%nat ->
    (forall w_in, entered (drop (index st) pre) context (world st) = Some w_in ->
                  is_Some (withoutNext (stop context) w_in)) ->
    exists o st',
      next (pre ++ stop :: post) context handler depth st = Some (o, st') /\
      Within (length pre) st st' /\
      (Forall (fun m => Relays (m context)) pre ->
       exists w_in w_out,
         entered (drop (index st) pre) context (world st) = Some w_in /\
         withoutNext (stop context) w_in = Some (o, w_out)).
Proof.
  intros Hpre. induction depth as [|d IH]; intros st Hi Hd Hstop; [lia|].
  simpl. destruct (decide (length (pre ++ stop :: post) <= index st)%nat) as [Hdone|_].
  { by apply chain_not_done in Hdone. }
  assert (Hcompose : forall st',
             (index st' <= S (length pre))%nat ->
             (exists ext, trace st' = (trace st ++ [StageRan (index st)]) ++ ext /\
                          Forall (UpTo (length pre)) ext) ->
             Within (length pre) st st').
  { intros st' Hi' (ext & Ht & Hq). split; [done|].
    exists (StageRan (index st) :: ext). split.
    - rewrite Ht. simpl. by rewrite <- app_assoc.
    - constructor; [by exists (index st)|done]. }
  destruct (decide (index st = length pre)) as [Hk|Hk].
  - lookup_stage st stop.
    { rewrite Hk. by apply list_lookup_middle. }
    rewrite run_firstNext. cbn [world index trace].
    assert (Hnone : drop (index st) pre = []) by (rewrite Hk; apply drop_all).
    rewrite Hnone in Hstop |- *.
    destruct (Hstop (world st) eq_refl) as [[o w'] Hf].
    unfold withoutNext in *.
    destruct (firstNext (stop context) (world st)) as [o1 w1|k w1] eqn:Hfn; [|done].
    injection Hf as -> ->.
    eexists _, _. split; [done|]. split.
    + apply Hcompose; [simpl; lia|]. exists []. by rewrite app_nil_r.
    + intros _. exists (world st), w'. split; [done|]. by rewrite Hfn.
  - assert (Hlt : (index st < length pre)%nat) by lia.
    destruct (lookup_lt_is_Some_2 pre (index st) Hlt) as [m Hm].
    lookup_stage st m.
    { by rewrite lookup_app_l. }
    pose proof (Forall_lookup_1 _ _ _ _ Hpre Hm) as Hm1. simpl in Hm1.
    rewrite run_firstNext. cbn [world index trace].
    rewrite (drop_S _ _ _ Hm) in Hstop |- *. cbn [entered] in Hstop |- *.
    destruct (firstNext (m context) (world st)) as [o1 w1|k w1] eqn:Hf.
    + eexists _, _. split; [done|]. split.
      * apply Hcompose; [simpl; lia|]. exists []. by rewrite app_nil_r.
      * intros Hrel. pose proof (Forall_lookup_1 _ _ _ _ Hrel Hm) as Hr.
        destruct (firstNext_relays _ (world st) Hr) as (k & w2 & Hf' & _).
        simpl in Hf'. congruence.
    + destruct (IH (mkExec (S (index st)) w1 (trace st ++ [StageRan (index st)])))
        as (o & st' & Hn & [Hi' Hext] & Hres); [simpl; lia|simpl; lia|exact Hstop|].
      rewrite Hn.
      destruct (run_never (next (pre ++ stop :: post) context handler d) (k o)
                          (firstNext_at_most_once _ _ _ _ Hm1 Hf o) st')
        as (o' & w' & Hr).
      rewrite Hr. eexists _, _. split; [done|]. split.
      * by apply Hcompose.
      * intros Hrel. destruct (Hres Hrel) as (w_in & w_out & He & Hwn).
        exists w_in, w_out. split; [done|].
        pose proof (Forall_lookup_1 _ _ _ _ Hrel Hm) as Hrm.
        destruct (firstNext_relays _ (world st) Hrm) as (k' & w2 & Hf' & Hy).
        simpl in Hf'. rewrite Hf in Hf'. injection Hf' as <- <-.
        destruct (run_yields (next (pre ++ stop :: post) context handler d)
                             (k o) o (Hy o) st') as (w'' & Hr').
        rewrite Hr in Hr'. by injection Hr' as -> _.
Qed.

Lemma next_relays o :
  Forall (fun m => Relays (m context)) pre ->
  Yields o (stop context) ->
  forall depth st,
    (index st <= length pre)%nat -> (length pre - index st < depth)%nat ->
    exists st', next (pre ++ stop :: post) context handler depth st = Some (o, st').
Proof.
  intros Hpre Hstop. induction depth as [|d IH]; intros st Hi Hd; [lia|].
  simpl. destruct (decide (length (pre ++ stop :: post) <= index st)%nat) as [Hdone|_].
  { by apply chain_not_done in Hdone. }
  destruct (decide (index st = length pre)) as [Hk|Hk].
  - lookup_stage st stop.
    { rewrite Hk. by apply list_lookup_middle. }
    destruct (run_yields (next (pre ++ stop :: post) context handler d)
                         (stop context) o Hstop
                         (mkExec (S (index st)) (world st)
                                 (trace st ++ [StageRan (index st)])))
      as (w & Hr).
    rewrite Hr. eauto.
  - assert (Hlt : (index st < length pre)%nat) by lia.
    destruct (lookup_lt_is_Some_2 pre (index st) Hlt) as [m Hm].
    lookup_stage st m.
    { by rewrite lookup_app_l. }
    pose proof (Forall_lookup_1 _ _ _ _ Hpre Hm) as Hm1. simpl in Hm1.
    apply run_relays; [done|].
    intros w. apply IH; simpl; lia.
Qed.
End ShortCircuit.
End ChainFacts.

Section ChainResults.
Context {W V Ctx : Type}.
Implicit Types (s : Script W V) (st : Exec W) (nxt : @Next W V).

(** A body started at or after position [lo] ends, given a [next]
    that does, and [index] never decreases. *)
Lemma run_total (lo : nat) nxt s :
  (forall st, (lo <= index st)%nat ->
              exists o st', nxt st = Some (o, st') /\ (index st <= index st')%nat) ->
  forall st, (lo <= index st)%nat ->
             exists o st', run nxt s st = Some (o, st') /\ (index st <= index st')%nat.
Proof.
  intros Hnxt. induction s as [v|e|c IH|w c IH|c IH]; intros st Hlo; simpl.
  - by exists (inl v), st.
  - by exists (inr e), st.
  - by apply IH.
  - by apply (IH (mkExec (index st) w (trace st))).
  - destruct (Hnxt st Hlo) as (o & st1 & -> & Hle).
    destruct (IH o st1) as (o' & st2 & Hr & Hle'); [lia|].
    exists o', st2. split; [done|lia].
Qed.

(** With a depth of the number of stages not yet invoked, [next]
    returns. *)
Lemma next_total (middlewares : list (MiddlewareFunction W V Ctx))
    (context : Ctx) (handler : W -> Outcome V * W) :
  forall depth st,
    (length middlewares - index st <= depth)%nat ->
    exists o st', next middlewares context handler depth st = Some (o, st') /\
                  (index st <= index st')%nat.
Proof.
  induction depth as [|d IH]; intros st Hd; simpl.
  - rewrite decide_True by lia. destruct (handler (world st)) as [o w].
    eexists _, _. split; [done|]. simpl. lia.
  - destruct (decide (length middlewares <= index st)%nat) as [Hdone|Hmore].
    + destruct (handler (world st)) as [o w].
      eexists _, _. split; [done|]. simpl. lia.
    + destruct (lookup_lt_is_Some_2 middlewares (index st)) as [m Hm]; [lia|].
      lookup_stage st m; [done|].
      destruct (run_total (S (index st)) (next middlewares context handler d)
                          (m context)) with
        (st := mkExec (S (index st)) (world st) (trace st ++ [StageRan (index st)]))
        as (o & st' & Hr & Hle).
      * intros st0 Hst0. apply IH. lia.
      * simpl. lia.
      * exists o, st'. split; [done|]. simpl in Hle. lia.
Qed.

(** [execute] returns for every chain, context, handler and state. *)
Lemma execute_total (middlewares : list (MiddlewareFunction W V Ctx))
    (context : Ctx) (handler : W -> Outcome V * W) (w : W) :
  exists o st, execute middlewares context handler w = Some (o, st).
Proof.
  destruct (next_total middlewares context handler (length middlewares)
                       (mkExec 0 w [])) as (o & st & Hn & _); [simpl; lia|].
  by exists o, st.
Qed.

(** C2, as amended.  In a chain whose stages before position
    [length pre] call [next] at most once, if the stage at that
    position, in the state in which it is entered, ends without
    calling [next], then [execute] returns, no stage at a later
    position and no terminal handler was invoked; and if moreover the
    stages before it hand on the outcome of [next] unchanged, the
    result of the chain is what that stage returns or throws in the
    state in which it is entered. *)
Theorem short_circuit (pre post : list (MiddlewareFunction W V Ctx))
    (stop : MiddlewareFunction W V Ctx) (context : Ctx)
    (handler : W -> Outcome V * W) (w : W) :
  Forall (fun m => CallsNextAtMostOnce (m context)) pre ->
  (forall w_in, entered pre context w = Some w_in ->
                is_Some (withoutNext (stop context) w_in)) ->
  exists o st,
    execute (pre ++ stop :: post) context handler w = Some (o, st) /\
    (HandlerRan ∉ trace st) /\
    (forall j, StageRan j ∈ trace st -> (j <= length pre)%nat) /\
    (Forall (fun m => Relays (m context)) pre ->
     exists w_in w_out,
       entered pre context w = Some w_in /\
       withoutNext (stop context) w_in = Some (o, w_out)).
Proof.
  intros Hpre Hstop. unfold execute.
  destruct (next_stops pre post stop context handler Hpre
              (length (pre ++ stop :: post)) (mkExec 0 w []))
    as (o & st & Hn & (_ & ext & Ht & Hext) & Hres).
  { simpl. lia. }
  { rewrite length_app. simpl. lia. }
  { done. }
  simpl in Ht, Hres. exists o, st. split; [done|]. rewrite Ht.
  rewrite Forall_forall in Hext. split; [|split; [|done]].
  - intros Hin. destruct (Hext _ Hin) as (j & Hj & _). discriminate.
  - intros j Hin. destruct (Hext _ Hin) as (j' & Hj & Hle). by injection Hj as ->.
Qed.
End ChainResults.

(** C2, as stated, fails.  The second stage never calls [next], yet
    the canary after it runs and its value is the result of the chain:
    the first stage awaits [next()] twice, and the second call goes on
    from the shared [index]. *)
Lemma short_circuit_counterexample :
  NeverCallsNext (Canary.stop tt) /\
  execute [Canary.twice; Canary.stop; Canary.canary] tt Canary.terminal []
  = Some (inl "canary",
          mkExec 3 ["canary ran"] [StageRan 0; StageRan 1; StageRan 2]).
Proof. split; [constructor|reflexivity]. Qed.

(** A stage before the one that stops may also replace what it
    receives: no later stage runs, but the chain ends with the value
    of the earlier stage. *)
Example earlier_stage_replaces_outcome :
  execute [Canary.rename; Canary.stop; Canary.canary] tt Canary.terminal []
  = Some (inl "renamed", mkExec 2 [] [StageRan 0; StageRan 1]).
Proof. reflexivity. Qed.

(** ** The rate limiter *)

Section RateLimiter.
Implicit Types (requests : gmap string (list Z)) (clientId : string).

(** What a check does, in one step: the entries in the window are
    kept, and the reading is appended unless they reach the ceiling. *)
Lemma checkAndRecord_eq requestsPerMinute clientId now requests :
  let recent := filter (fun time => now - 60000 < time) (stored clientId requests) in
  checkAndRecord requestsPerMinute clientId now requests =
  if decide (requestsPerMinute <= Z.of_nat (length recent))
  then (Rejected, <[clientId := recent]> requests)
  else (Accepted, <[clientId := recent ++ [now]]> requests).
Proof.
  unfold checkAndRecord, stored. simpl.
  destruct (decide (is_Some (requests !! clientId))) as [[old Hold]|Hnone].
  - rewrite Hold. simpl. rewrite insert_insert_eq.
    by destruct (decide _).
  - apply eq_None_not_Some in Hnone. rewrite Hnone, lookup_insert_eq. simpl.
    rewrite !insert_insert_eq. by destruct (decide _).
Qed.

Lemma checkAndRecord_other requestsPerMinute c1 c2 now requests :
  c1 <> c2 ->
  (checkAndRecord requestsPerMinute c2 now requests).2 !! c1 = requests !! c1.
Proof.
  intros Hne. rewrite checkAndRecord_eq. simpl.
  destruct (decide _); simpl; by rewrite lookup_insert_ne.
Qed.


Lemma checkAll_other requestsPerMinute c1 c2 times :
  c1 <> c2 ->
  forall requests,
    (checkAll requestsPerMinute c2 times requests).2 !! c1 = requests !! c1.
Proof.
  intros Hne. induction times as [|now later IH]; intros requests; simpl; [done|].
  pose proof (checkAndRecord_other requestsPerMinute c1 c2 now requests Hne) as Hstep.
  destruct (checkAndRecord requestsPerMinute c2 now requests) as [a requests1].
  specialize (IH requests1).
  destruct (checkAll requestsPerMinute c2 later requests1) as [outcomes final].
  simpl in *. congruence.
Qed.
End RateLimiter.

Section Window.
Implicit Types (requests : gmap string (list Z)) (clientId : string).

Lemma filter_expired (t : Z) (l : list Z) :
  Forall (fun e => e <= t - 60000) l ->
  filter (fun time => t - 60000 < time) l = [].
Proof.
  induction 1 as [|e l He _ IH]; [done|].
  rewrite filter_cons_False by lia. done.
Qed.

Lemma filter_window_mono (lo t : Z) (l : list Z) :
  lo <= t ->
  filter (fun time => t - 60000 < time) (filter (fun a => lo - 60000 < a) l) =
  filter (fun time => t - 60000 < time) l.
Proof.
  intros Hle. induction l as [|a l IH]; [done|].
  destruct (decide (lo - 60000 < a)) as [Ha|Ha].
  - rewrite (filter_cons_True (fun a => lo - 60000 < a)) by done.
    destruct (decide (t - 60000 < a)).
    + rewrite !(filter_cons_True (fun time => t - 60000 < time)) by done. by f_equal.
    + rewrite !(filter_cons_False (fun time => t - 60000 < time)) by done. done.
  - rewrite (filter_cons_False (fun a => lo - 60000 < a)) by done.
    rewrite (filter_cons_False (fun time => t - 60000 < time)) by lia. done.
Qed.

Lemma filter_bounded (t : Z) (l : list Z) :
  Forall (fun a => a <= t) l ->
  withinWindow t l = filter (fun a => t - 60000 < a) l.
Proof.
  unfold withinWindow. induction 1 as [|a l Ha _ IH]; [done|].
  destruct (decide (t - 60000 < a)).
  - rewrite filter_cons_True by lia. rewrite (filter_cons_True (fun a => t - 60000 < a)) by done.
    by f_equal.
  - rewrite filter_cons_False by lia. rewrite (filter_cons_False (fun a => t - 60000 < a)) by done.
    done.
Qed.

(** The invariant of the stored sequence along a run of checks whose
    readings never go back: it is the admissions so far that lie
    after the start of the window of the latest check. *)
Lemma window_invariant requestsPerMinute clientId :
  forall times requests accepted lo,
    stored clientId requests = filter (fun a => lo - 60000 < a) accepted ->
    Forall (fun a => a <= lo) accepted ->
    nondecreasing lo times ->
    let final := (checkAll requestsPerMinute clientId times requests).2 in
    let accepted' := accepted ++ admissions requestsPerMinute clientId times requests in
    let latest := List.last times lo in
    stored clientId final = filter (fun a => latest - 60000 < a) accepted' /\
    Forall (fun a => a <= latest) accepted'.
Proof.
  induction times as [|t later IH]; intros requests accepted lo Hst Hle Hmono.
  { simpl. by rewrite app_nil_r. }
  destruct Hmono as [Hlo Hlater].
  assert (Hle' : Forall (fun a => a <= t) accepted).
  { eapply Forall_impl; [exact Hle|]. simpl. intros; lia. }
  cbn [checkAll admissions]. rewrite checkAndRecord_eq. cbn zeta.
  rewrite Hst, (filter_window_mono lo t) by done.
  replace (List.last (t :: later) lo) with (List.last later t)
    by (clear; revert t; induction later; intros; simpl; auto; destruct later; auto).
  destruct (decide _) as [Hfull|Hroom].
  - specialize (IH (<[clientId := filter (fun time => t - 60000 < time) accepted]> requests)
                   accepted t).
    destruct (checkAll _ _ later _) as [outcomes final] eqn:Hall. simpl in *.
    apply IH; [|done..]. unfold stored. by rewrite lookup_insert_eq.
  - specialize (IH (<[clientId := filter (fun time => t - 60000 < time) accepted ++ [t]]> requests)
                   (accepted ++ [t]) t).
    destruct (checkAll _ _ later _) as [outcomes final] eqn:Hall. simpl in *.
    rewrite !(cons_middle t accepted), !app_assoc.
    apply IH; [| |done].
    + unfold stored. rewrite lookup_insert_eq. simpl.
      rewrite filter_app. f_equal. rewrite filter_cons_True by lia. done.
    + apply Forall_app. split; [done|]. constructor; [lia|done].
Qed.
End Window.

(** C3.  With the ceiling at 2, three successive checks for one client
    whose readings lie within one window of 60000 ms (60 s), the client
    having no earlier entry left in that window, are admitted, admitted
    and rejected; the map after the rejected check is the map before
    it, with the two admitted timestamps and no third. *)
Theorem three_checks_ceiling_two (clientId : string) (t1 t2 t3 : Z)
    (requests : gmap string (list Z)) :
  Forall (fun e => e <= t1 - 60000) (stored clientId requests) ->
  t1 <= t2 <= t3 ->
  t3 - 60000 < t1 ->
  checkAll 2 clientId [t1; t2; t3] requests =
    ([Accepted; Accepted; Rejected], <[clientId := [t1; t2]]> requests) /\
  checkAll 2 clientId [t1; t2] requests =
    ([Accepted; Accepted], <[clientId := [t1; t2]]> requests).
Proof.
  intros Hold Hord Hwin.
  assert (H1 : checkAndRecord 2 clientId t1 requests =
               (Accepted, <[clientId := [t1]]> requests)).
  { rewrite checkAndRecord_eq. cbn zeta. rewrite filter_expired by done. done. }
  assert (H2 : checkAndRecord 2 clientId t2 (<[clientId := [t1]]> requests) =
               (Accepted, <[clientId := [t1; t2]]> requests)).
  { rewrite checkAndRecord_eq. cbn zeta. unfold stored. rewrite lookup_insert_eq. simpl.
    rewrite filter_cons_True by lia. rewrite filter_nil. simpl.
    by rewrite insert_insert_eq. }
  assert (H3 : checkAndRecord 2 clientId t3 (<[clientId := [t1; t2]]> requests) =
               (Rejected, <[clientId := [t1; t2]]> requests)).
  { rewrite checkAndRecord_eq. cbn zeta. unfold stored. rewrite lookup_insert_eq. simpl.
    rewrite filter_cons_True by lia. rewrite filter_cons_True by lia.
    rewrite filter_nil. simpl. by rewrite insert_insert_eq. }
  split; simpl; rewrite H1, H2; [by rewrite H3|done].
Qed.

Lemma three_checks_ceiling_two_witness :
  checkAll 2 "default" [1000; 1500; 2000] ∅ =
    ([Accepted; Accepted; Rejected], <["default" := [1000; 1500]]> ∅) /\
  checkAll 2 "default" [1000; 1500] ∅ =
    ([Accepted; Accepted], <["default" := [1000; 1500]]> ∅).
Proof.
  apply (three_checks_ceiling_two "default" 1000 1500 2000 ∅).
  - unfold stored. rewrite lookup_empty. constructor.
  - lia.
  - lia.
Defined.

(** C5, as amended.  Along a run of checks for one client, started
    with nothing stored for it and with readings that never go back,
    the stored sequence right after a check is exactly as long as the
    number of admissions in the window trailing that check. *)
Theorem stored_length_at_check (requestsPerMinute : Z) (clientId : string)
    (first : Z) (later : list Z) (requests : gmap string (list Z)) :
  stored clientId requests = [] ->
  nondecreasing first later ->
  let times := first :: later in
  let now := List.last later first in
  length (stored clientId (checkAll requestsPerMinute clientId times requests).2) =
  length (withinWindow now (admissions requestsPerMinute clientId times requests)).
Proof.
  intros Hfresh Hmono times now.
  destruct (window_invariant requestsPerMinute clientId times requests [] first)
    as [Hst Hle].
  - by rewrite Hfresh.
  - constructor.
  - split; [lia|done].
  - simpl app in Hst, Hle.
    replace (List.last times first) with now in Hst, Hle
      by (subst times now; clear; revert first; induction later as [|x [|y l] IH];
          intros; simpl; auto).
    rewrite Hst. by rewrite filter_bounded.
Qed.

Lemma stored_length_at_check_witness :
  length (stored "default" (checkAll 2 "default" [0; 10; 70000] ∅).2) =
  length (withinWindow 70000 (admissions 2 "default" [0; 10; 70000] ∅)).
Proof.
  apply (stored_length_at_check 2 "default" 0 [10; 70000] ∅).
  - unfold stored. by rewrite lookup_empty.
  - simpl. lia.
Defined.

(** C5, as stated, fails between checks.  After one admission at
    instant 0 and no further check, the stored sequence still has that
    entry at instant 60000, when no admission lies in the trailing
    window any more: nothing prunes it before the next check. *)
Lemma stored_length_counterexample :
  let requests := (checkAll 60 "default" [0] ∅).2 in
  stored "default" requests = [0] /\
  withinWindow 60000 (admissions 60 "default" [0] ∅) = [] /\
  length (stored "default" requests) <>
  length (withinWindow 60000 (admissions 60 "default" [0] ∅)).
Proof. vm_compute. repeat split; discriminate. Qed.

(** ** The pipeline of the server *)

Section Pipeline.
Context {Args Env : Type}.
Implicit Types (w : World Env) (context : MiddlewareContext (Params Args)).
Implicit Types (handler : World Env -> Outcome Response * World Env).

(** The stages of the server have the shapes that the short-circuit
    property asks of the stages before the one that stops. *)
Lemma loggingMiddleware_relays context :
  Relays (@loggingMiddleware Args Env context).
Proof.
  unfold loggingMiddleware, dateNow, consoleWrite.
  do 2 (apply relays_get; intros ?; apply relays_set).
  apply relays_next. intros [result|error];
    do 2 (apply yields_get; intros ?; apply yields_set);
    by constructor.
Qed.

Lemma Finish_never (o : Outcome Response) :
  NeverCallsNext (Finish o : Script (World Env) Response).
Proof. destruct o; constructor. Qed.

Lemma rateLimitMiddleware_at_most_once requestsPerMinute context :
  CallsNextAtMostOnce (@rateLimitMiddleware Args Env requestsPerMinute context).
Proof.
  unfold rateLimitMiddleware, dateNow.
  apply amo_get; intros w0; apply amo_set. apply amo_get; intros w1.
  destruct (checkAndRecord _ _ _ _) as [[|] requests']; apply amo_set.
  - apply amo_next. apply Finish_never.
  - constructor.
Qed.

(** A request that the rate-limit stage rejects: the terminal handler
    is not invoked and the chain ends with the failure, which the
    logging stage has thrown again. *)
Lemma pipeline_rejected config context handler w :
  (checkAndRecord (rateLimitRpm config) "default" (clock w (S (ticks w)))
                  (requests w)).1 = Rejected ->
  exists st,
    execute (setupMiddleware config) context handler w =
      Some (inr (ErrorObj "Rate limit exceeded"), st) /\
    trace st = [StageRan 0; StageRan 1].
Proof.
  intros Hrej. unfold execute, setupMiddleware.
  cbn -[checkAndRecord].
  destruct (checkAndRecord _ _ _ _) as [a requests'] eqn:Hc.
  simpl in Hrej. subst a.
  rewrite !decide_False by lia. cbn.
  eexists. split; reflexivity.
Qed.

(** A request that the rate-limit stage admits: the chain ends with
    what the terminal handler returns or throws. *)
Lemma pipeline_accepted config context handler w :
  (checkAndRecord (rateLimitRpm config) "default" (clock w (S (ticks w)))
                  (requests w)).1 = Accepted ->
  exists st,
    execute (setupMiddleware config) context handler w =
      Some ((handler (acceptedWorld (rateLimitRpm config) context w)).1, st) /\
    trace st = [StageRan 0; StageRan 1; HandlerRan].
Proof.
  intros Hadm. unfold execute, setupMiddleware, acceptedWorld.
  cbn -[checkAndRecord].
  destruct (checkAndRecord _ _ _ _) as [a requests'] eqn:Hc.
  simpl in Hadm. subst a.
  rewrite !decide_False by lia. cbn. rewrite decide_True by lia.
  destruct (handler _) as [[result|error] w1]; cbn;
    eexists; split; reflexivity.
Qed.

Lemma checkAndRecord_zero clientId now (requests : gmap string (list Z)) :
  (checkAndRecord 0 clientId now requests).1 = Rejected.
Proof.
  rewrite checkAndRecord_eq. cbn zeta. rewrite decide_True by lia. done.
Qed.
End Pipeline.

(** The short-circuit theorem at the chain of the server, for a
    request that arrives when the one entry that a ceiling of 1 allows
    is in the window: the logging stage hands on what the rate-limit
    stage throws in the state in which it is entered. *)
Lemma short_circuit_witness :
  let logging := @loggingMiddleware string unit in
  let limit := @rateLimitMiddleware string unit 1 in
  let context := mkContext "tools/list" (@NoParams string) 2000 in
  let w := worldAt 2000 (<["default" := [1500]]> ∅) in
  let handler := listToolsHandler (initializeTools (mkServerConfig 1 true true)) in
  Forall (fun m => CallsNextAtMostOnce (m context)) [logging] /\
  (forall w_in, entered [logging] context w = Some w_in ->
                is_Some (withoutNext (limit context) w_in)) /\
  Forall (fun m => Relays (m context)) [logging] /\
  exists o st,
    execute ([logging] ++ limit :: []) context handler w
    = Some (o, st) /\
    (HandlerRan ∉ trace st) /\
    (forall j, StageRan j ∈ trace st -> (j <= 1)%nat) /\
    (Forall (fun m => Relays (m context)) [logging] ->
     exists w_in w_out,
       entered [logging] context w = Some w_in /\
       withoutNext (limit context) w_in = Some (o, w_out)).
Proof.
  intros logging limit context w handler.
  assert (Hrelays : Forall (fun m => Relays (m context)) [logging]).
  { constructor; [apply loggingMiddleware_relays|constructor]. }
  assert (Honce : Forall (fun m => CallsNextAtMostOnce (m context)) [logging]).
  { constructor; [apply Relays_at_most_once, loggingMiddleware_relays|constructor]. }
  assert (Hstop : forall w_in, entered [logging] context w = Some w_in ->
                               is_Some (withoutNext (limit context) w_in)).
  { intros w_in Hin. cbn in Hin. injection Hin as <-. vm_compute. eauto. }
  split; [done|]. split; [done|]. split; [done|].
  exact (short_circuit [logging] [] limit context handler w
                       Honce Hstop).
Defined.



(** C6.  With the ceiling at 0 every check is rejected, whatever is
    stored for the client, and every request through the stages of the
    server ends with the failure "Rate limit exceeded" without its
    terminal handler being invoked. *)
Theorem ceiling_zero_rejects_all :
  (forall clientId now (requests : gmap string (list Z)),
      (checkAndRecord 0 clientId now requests).1 = Rejected) /\
  (forall (Args Env : Type) (calculatorOn fileManagerOn : bool)
          (context : MiddlewareContext (Params Args))
          (handler : World Env -> Outcome Response * World Env) (w : World Env),
      exists st,
        execute (setupMiddleware (mkServerConfig 0 calculatorOn fileManagerOn))
                context handler w =
          Some (inr (ErrorObj "Rate limit exceeded"), st) /\
        (HandlerRan ∉ trace st)).
Proof.
  split.
  - intros. apply checkAndRecord_zero.
  - intros.
    destruct (pipeline_rejected (mkServerConfig 0 calculatorOn fileManagerOn)
                                context handler w) as (st & Hex & Htr).
    { apply checkAndRecord_zero. }
    exists st. split; [done|]. rewrite Htr.
    intros Hin. repeat (apply elem_of_cons in Hin as [Hin|Hin]; [discriminate|]).
    by apply elem_of_nil in Hin.
Qed.

(** ** Text of the error results *)

Lemma includes_unfold (needle s : string) :
  includes needle s =
  String.prefix needle s ||
  match s with
  | EmptyString => false
  | String _ rest => includes needle rest
  end.
Proof. by destruct s. Qed.

Lemma prefix_append (needle post : string) :
  String.prefix needle (needle +:+ post) = true.
Proof.
  induction needle as [|a needle IH]; simpl; [by destruct post|].
  destruct (Ascii.ascii_dec a a); [done|congruence].
Qed.

Lemma includes_suffix (needle pre s : string) :
  includes needle s = true -> includes needle (pre +:+ s) = true.
Proof.
  intros Hs. induction pre as [|a pre IH]; simpl; [done|].
  rewrite IH. apply orb_true_r.
Qed.

Lemma includes_middle (needle pre post : string) :
  includes needle (pre +:+ needle +:+ post) = true.
Proof.
  apply includes_suffix. rewrite includes_unfold, prefix_append. done.
Qed.

(** ** The request handlers *)

Section Handlers.
Context {Args Env : Type}.
Variables calculate readFile writeFile listDirectory :
  Args -> Env -> (ToolResult + Thrown) * Env.

Abbreviation callToolTry' := (callToolTry calculate readFile writeFile listDirectory).
Abbreviation callToolHandler' := (callToolHandler calculate readFile writeFile listDirectory).
Abbreviation handleCallTool' := (handleCallTool calculate readFile writeFile listDirectory).

Implicit Types (w : World Env) (this : MCPTypeScriptServer).

(** The terminal handler of tools/call never throws: a failure of its
    [try] block becomes the error result. *)
Lemma callToolHandler_converts tools name args w :
  exists result,
    (callToolHandler' tools name args w).1 = inl (CallToolResult result) /\
    forall error,
      (callToolTry' tools name args (logger_info ("Executing tool: " +:+ name) w)).1
      = inr error ->
      result = errorResult (errorMessageOf error).
Proof.
  unfold callToolHandler.
  destruct (callToolTry' _ _ _ _) as [[result|error] w'].
  - exists result. split; [done|]. discriminate.
  - eexists. split; [done|]. by intros error' [= ->].
Qed.

(** C1, as amended.  For a tools/call request that the rate-limit
    stage admits, the chain returns a result, and when the routing of
    the terminal handler fails (tool not found, unknown tool method, a
    tool body that throws) that result is the error result with the
    text "Error: " followed by the message and with [isError] true; a
    request that the rate-limit stage rejects is not converted: the
    handler ends with the failure "Rate limit exceeded". *)
Theorem call_tool_failures this (now : Z) (name : string) (args : Args) w :
  let requestsPerMinute := rateLimitRpm (config this) in
  let context := mkContext "tools/call" (CallToolParams name args) now in
  let verdict :=
    (checkAndRecord requestsPerMinute "default" (clock w (S (ticks w)))
                    (requests w)).1 in
  let entered :=
    logger_info ("Executing tool: " +:+ name)
                (acceptedWorld requestsPerMinute context w) in
  (verdict = Accepted ->
   exists result st,
     handleCallTool' this now name args w = Some (inl (CallToolResult result), st) /\
     forall error,
       (callToolTry' (tools this) name args entered).1 = inr error ->
       result =
       mkToolResult [textPart ("Error: " +:+ errorMessageOf error)] (Some true)) /\
  (verdict = Rejected ->
   exists st,
     handleCallTool' this now name args w =
     Some (inr (ErrorObj "Rate limit exceeded"), st)).
Proof.
  intros rpm context verdict entered. split; intros Hv.
  - destruct (pipeline_accepted (config this) context
                (callToolHandler' (tools this) name args) w Hv) as (st & Hex & _).
    destruct (callToolHandler_converts (tools this) name args
                (acceptedWorld rpm context w)) as (result & Hres & Herr).
    exists result, st. split; [|exact Herr].
    unfold handleCallTool. fold context. rewrite Hex. fold rpm.
    by rewrite Hres.
  - destruct (pipeline_rejected (config this) context
                (callToolHandler' (tools this) name args) w Hv) as (st & Hex & _).
    by exists st.
Qed.

(** C7.  For a name with no binding in the map of tools, the routing
    throws the error "Tool 'name' not found", the terminal handler
    returns the error result whose text holds "not found" and the
    name, and the tools/call handler resolves to that result for
    every request that the rate-limit stage admits. *)
Theorem unknown_tool_not_found this (now : Z) (name : string) (args : Args) w :
  JsMap.get name (tools this) = None ->
  let text := "Error: Tool '" +:+ name +:+ "' not found" in
  let answer := CallToolResult (mkToolResult [textPart text] (Some true)) in
  (forall w0, (callToolTry' (tools this) name args w0).1 =
              inr (ErrorObj ("Tool '" +:+ name +:+ "' not found"))) /\
  (forall w0, (callToolHandler' (tools this) name args w0).1 = inl answer) /\
  includes "not found" text = true /\
  includes name text = true /\
  ((checkAndRecord (rateLimitRpm (config this)) "default" (clock w (S (ticks w)))
                   (requests w)).1 = Accepted ->
   exists st, handleCallTool' this now name args w = Some (inl answer, st)).
Proof.
  intros Hnone text answer.
  assert (Htry : forall w0, callToolTry' (tools this) name args w0 =
                            (inr (ErrorObj ("Tool '" +:+ name +:+ "' not found")), w0)).
  { intros w0. unfold callToolTry. by rewrite Hnone. }
  assert (Hhandler : forall w0, (callToolHandler' (tools this) name args w0).1 = inl answer).
  { intros w0. unfold callToolHandler. by rewrite Htry. }
  repeat split.
  - intros w0. by rewrite Htry.
  - exact Hhandler.
  - subst text. do 2 apply includes_suffix. done.
  - subst text. apply includes_middle.
  - intros Hadm.
    destruct (pipeline_accepted (config this)
                (mkContext "tools/call" (CallToolParams name args) now)
                (callToolHandler' (tools this) name args) w Hadm) as (st & Hex & _).
    exists st. unfold handleCallTool. rewrite Hex. by rewrite Hhandler.
Qed.

(** The names that [initializeTools] binds, each to an object that
    has the method the [switch] calls for it. *)
Lemma initializeTools_bound config name tool :
  JsMap.get name (initializeTools config) = Some tool ->
  (name = "calculate" /\ tool = CalculatorTool) \/
  (name = "read_file" /\ tool = FileManagerTool) \/
  (name = "write_file" /\ tool = FileManagerTool) \/
  (name = "list_directory" /\ tool = FileManagerTool).
Proof.
  unfold initializeTools.
  destruct (calculatorEnabled config), (fileManagerEnabled config); simpl;
    repeat case_decide; naive_solver.
Qed.

Lemma callToolTry_registered config name tool args body result e w :
  JsMap.get name (initializeTools config) = Some tool ->
  handlerOf calculate readFile writeFile listDirectory name = Some body ->
  body args (env w) = (inl result, e) ->
  (callToolTry' (initializeTools config) name args w).1 = inl result.
Proof.
  intros Hget Hbody Hrun. unfold callToolTry. rewrite Hget.
  destruct (initializeTools_bound _ _ _ Hget) as [[-> ->]|[[-> ->]|[[-> ->]|[-> ->]]]];
    vm_compute in Hbody; injection Hbody as <-;
    unfold callMethod; repeat case_decide; try congruence;
    unfold onEnv; rewrite Hrun; done.
Qed.

(** C8.  For a name that [initializeTools] has bound, listing the
    definitions leaves the state as it was, and a tools/call request
    for that name which the rate-limit stage admits resolves to
    exactly the result that the tool body bound to the name produces:
    the routing, the rate-limit stage and the logging stage hand it
    on as it is. *)
Theorem registered_tool_result_unmodified config (now : Z) (name : string)
    (args : Args) (tool : Tool) w :
  JsMap.get name (initializeTools config) = Some tool ->
  (checkAndRecord (rateLimitRpm config) "default" (clock w (S (ticks w)))
                  (requests w)).1 = Accepted ->
  (listToolsHandler (tools (newServer config)) w).2 = w /\
  exists body,
    handlerOf calculate readFile writeFile listDirectory name = Some body /\
    forall result e,
      body args (env w) = (inl result, e) ->
      exists st,
        handleCallTool' (newServer config) now name args w =
        Some (inl (CallToolResult result), st).
Proof.
  intros Hget Hadm. split; [done|].
  assert (Hbody : exists body,
             handlerOf calculate readFile writeFile listDirectory name = Some body).
  { destruct (initializeTools_bound _ _ _ Hget) as [[-> _]|[[-> _]|[[-> _]|[-> _]]]];
      eexists; reflexivity. }
  destruct Hbody as [body Hbody]. exists body. split; [done|].
  intros result e Hrun.
  set (context := mkContext "tools/call" (CallToolParams name args) now).
  destruct (pipeline_accepted config context
              (callToolHandler' (initializeTools config) name args) w Hadm)
    as (st & Hex & _).
  exists st. unfold handleCallTool. simpl. fold context. rewrite Hex.
  do 2 f_equal. unfold callToolHandler.
  pose proof (callToolTry_registered config name tool args body result e
                (logger_info ("Executing tool: " +:+ name)
                             (acceptedWorld (rateLimitRpm config) context w))
                Hget Hbody Hrun) as Htry.
  destruct (callToolTry' _ _ _ _) as [[result'|error] w'];
    simpl in Htry; [|discriminate].
  by injection Htry as ->.
Qed.

(** C10.  With both tool families enabled the map has four bindings,
    three of them to the one file manager, and the tools/list handler
    returns one definition per binding: that of the calculator and
    three times the 'file_operations' definition. *)
Theorem list_tools_one_definition_per_name (requestsPerMinute : Z) w :
  let this := newServer (mkServerConfig requestsPerMinute true true) in
  let fileOperations := getDefinition FileManagerTool in
  tools this = [("calculate", CalculatorTool); ("read_file", FileManagerTool);
                ("write_file", FileManagerTool); ("list_directory", FileManagerTool)] /\
  listToolsHandler (tools this) w =
    (inl (ToolsList [getDefinition CalculatorTool;
                     fileOperations; fileOperations; fileOperations]), w) /\
  def_name fileOperations = "file_operations".
Proof. by repeat split. Qed.

(** The resources/read handler has no [try]: for an unknown [uri] the
    request that the rate-limit stage admits ends with the failure. *)
Lemma read_resource_not_found (sources : ResourceSources Env)
    this (now : Z) (uri : string) w :
  JsMap.get uri (resources this) = None ->
  (checkAndRecord (rateLimitRpm (config this)) "default" (clock w (S (ticks w)))
                  (requests w)).1 = Accepted ->
  exists st,
    handleReadResource Args Env sources this now uri w =
    Some (inr (ErrorObj ("Resource not found: " +:+ uri)), st).
Proof.
  intros Hnone Hadm.
  destruct (pipeline_accepted (config this)
              (mkContext "resources/read" (@ReadResourceParams Args uri) now)
              (readResourceHandler sources (resources this) uri) w Hadm)
    as (st & Hex & _).
  exists st. unfold handleReadResource. rewrite Hex.
  unfold readResourceHandler. by rewrite Hnone.
Qed.
End Handlers.

(** The theorem at a server with the default configuration and tool
    bodies that echo, for a request naming no tool, at a fresh rate
    limiter. *)
Lemma call_tool_failures_witness :
  exists result st,
    handleCallTool echo echo echo echo (newServer defaultConfig) 5
                   "unknown_tool" "{}" (worldAt 1000 ∅)
    = Some (inl (CallToolResult result), st) /\
    forall error,
      (callToolTry echo echo echo echo (tools (newServer defaultConfig))
         "unknown_tool" "{}"
         (logger_info "Executing tool: unknown_tool"
            (acceptedWorld 60
               (mkContext "tools/call" (CallToolParams "unknown_tool" "{}") 5)
               (worldAt 1000 ∅)))).1 = inr error ->
      result = mkToolResult [textPart ("Error: " +:+ errorMessageOf error)] (Some true).
Proof.
  apply (call_tool_failures echo echo echo echo (newServer defaultConfig) 5
                            "unknown_tool" "{}" (worldAt 1000 ∅)).
  reflexivity.
Defined.

(** C1, as stated, fails.  With a ceiling of 1 and one request of the
    last minute on record, a tools/call request for a registered tool
    is rejected by the rate-limit stage and the request handler ends
    with the failure itself, not with an error result: nothing between
    the chain and the transport layer catches it. *)
Lemma call_tool_failures_counterexample :
  fst <$> handleCallTool echo echo echo echo
            (newServer (mkServerConfig 1 true true)) 2000
            "calculate" "1 + 1" (worldAt 2000 {["default" := [1500]]})
  = Some (inr (ErrorObj "Rate limit exceeded")).
Proof. vm_compute. reflexivity. Qed.

Lemma unknown_tool_not_found_witness :
  let text := "Error: Tool '" +:+ "unknown_tool" +:+ "' not found" in
  let answer := CallToolResult (mkToolResult [textPart text] (Some true)) in
  (forall w0, (callToolTry echo echo echo echo (tools (newServer defaultConfig))
                 "unknown_tool" "{}" w0).1 =
              inr (ErrorObj ("Tool '" +:+ "unknown_tool" +:+ "' not found"))) /\
  (forall w0, (callToolHandler echo echo echo echo (tools (newServer defaultConfig))
                 "unknown_tool" "{}" w0).1 = inl answer) /\
  includes "not found" text = true /\
  includes "unknown_tool" text = true /\
  ((checkAndRecord (rateLimitRpm (config (newServer defaultConfig))) "default"
                   (clock (worldAt 1000 ∅) (S (ticks (worldAt 1000 ∅))))
                   (requests (worldAt 1000 ∅))).1 = Accepted ->
   exists st,
     handleCallTool echo echo echo echo (newServer defaultConfig) 5
                    "unknown_tool" "{}" (worldAt 1000 ∅) = Some (inl answer, st)).
Proof.
  apply (unknown_tool_not_found echo echo echo echo (newServer defaultConfig) 5
                                "unknown_tool" "{}" (worldAt 1000 ∅)).
  reflexivity.
Defined.

Lemma registered_tool_result_unmodified_witness :
  (listToolsHandler (tools (newServer defaultConfig)) (worldAt 1000 ∅)).2
  = worldAt 1000 ∅ /\
  exists body,
    handlerOf echo echo echo echo "calculate" = Some body /\
    forall result e,
      body "2 + 3" (env (worldAt 1000 ∅)) = (inl result, e) ->
      exists st,
        handleCallTool echo echo echo echo (newServer defaultConfig) 5
                       "calculate" "2 + 3" (worldAt 1000 ∅) =
        Some (inl (CallToolResult result), st).
Proof.
  apply (registered_tool_result_unmodified echo echo echo echo defaultConfig 5
           "calculate" "2 + 3" CalculatorTool (worldAt 1000 ∅)).
  - reflexivity.
  - reflexivity.
Defined.

(** ** The health checker *)

(** C9.  The status of a snapshot is [unhealthy] when the heap in use
    is above the threshold of the checker and [healthy] when it is
    below; it is a function of that reading and the threshold alone;
    the snapshot reports the reading it was computed from; and the
    threshold of a new checker is 500 MiB. *)
Theorem health_status_threshold (this : HealthChecker) (now : Z) (iso : string)
    (memUsage : MemoryUsage) :
  (memoryThreshold this < heapUsed memUsage ->
   status (getHealthStatus this now iso memUsage) = unhealthy) /\
  (heapUsed memUsage < memoryThreshold this ->
   status (getHealthStatus this now iso memUsage) = healthy) /\
  (forall now' iso' memUsage',
      heapUsed memUsage' = heapUsed memUsage ->
      status (getHealthStatus this now' iso' memUsage') =
      status (getHealthStatus this now iso memUsage)) /\
  memory_used (getHealthStatus this now iso memUsage) = heapUsed memUsage /\
  memoryThreshold (newHealthChecker now) = 500 * 1024 * 1024.
Proof.
  unfold getHealthStatus. simpl. repeat split.
  - intros Habove. rewrite bool_decide_eq_false_2 by lia. done.
  - intros Hbelow. rewrite bool_decide_eq_true_2 by lia. done.
  - intros now' iso' memUsage' ->. done.
Qed.

Lemma health_status_threshold_witness :
  status (getHealthStatus (newHealthChecker 0) 1000 "2025-01-01T00:00:01.000Z"
                          (mkMemoryUsage 600000000 700000000)) = unhealthy /\
  status (getHealthStatus (newHealthChecker 0) 1000 "2025-01-01T00:00:01.000Z"
                          (mkMemoryUsage 100000000 700000000)) = healthy.
Proof.
  split.
  - apply (health_status_threshold (newHealthChecker 0) 1000 "2025-01-01T00:00:01.000Z"
                                   (mkMemoryUsage 600000000 700000000)).
    simpl. lia.
  - apply (health_status_threshold (newHealthChecker 0) 1000 "2025-01-01T00:00:01.000Z"
                                   (mkMemoryUsage 100000000 700000000)).
    simpl. lia.
Defined.

(** * Further properties of the code *)

(** ** Chains of stages that hand on the outcome *)

Section RelayingChains.
Context {W V Ctx : Type}.
Implicit Types (s : Script W V) (st : Exec W) (nxt : @Next W V).

(** A relaying body keeps what holds of the outcome and the state of
    its one call of [next()], as long as that does not depend on the
    process state the body then writes. *)
Lemma run_relays_post (P : Outcome V -> Exec W -> Prop) nxt s :
  Relays s ->
  (forall o st w, P o st -> P o (mkExec (index st) w (trace st))) ->
  forall st,
    (forall w, exists o st',
        nxt (mkExec (index st) w (trace st)) = Some (o, st') /\ P o st') ->
    exists o st', run nxt s st = Some (o, st') /\ P o st'.
Proof.
  intros Hrel Hframe. induction Hrel as [c _ IH|w c _ IH|c Hc]; intros st Hnxt; simpl.
  - by apply IH.
  - by apply (IH (mkExec (index st) w (trace st))).
  - destruct (Hnxt (world st)) as (o & st1 & Hn & HP).
    replace (mkExec (index st) (world st) (trace st)) with st in * by (by destruct st).
    rewrite Hn.
    destruct (run_yields nxt (c o) o (Hc o) st1) as (w' & Hr).
    exists o, (mkExec (index st1) w' (trace st1)). split; [done|]. by apply Hframe.
Qed.

Lemma next_relaying (middlewares : list (MiddlewareFunction W V Ctx))
    (context : Ctx) (handler : W -> Outcome V * W) :
  Forall (fun m => Relays (m context)) middlewares ->
  forall depth st,
    (index st <= length middlewares)%nat ->
    (length middlewares - index st <= depth)%nat ->
    exists o st',
      next middlewares context handler depth st = Some (o, st') /\
      (exists w, o = (handler w).1) /\
      trace st' =
        trace st ++ (StageRan <$> seq (index st) (length middlewares - index st))
                 ++ [HandlerRan].
Proof.
  intros Hall.
  assert (Hend : forall depth st,
             (index st <= length middlewares)%nat ->
             (length middlewares <= index st)%nat ->
             exists o st',
               next middlewares context handler depth st = Some (o, st') /\
               (exists w, o = (handler w).1) /\
               trace st' =
                 trace st ++ (StageRan <$> seq (index st) (length middlewares - index st))
                          ++ [HandlerRan]).
  { intros depth st Hle Hge.
    replace (length middlewares - index st)%nat with 0%nat by lia.
    destruct depth; simpl; rewrite decide_True by done;
      destruct (handler (world st)) as [o w] eqn:Hh;
      (eexists _, _; split; [done|]; split; [|done]);
      exists (world st); by rewrite Hh. }
  induction depth as [|d IH]; intros st Hi Hd.
  { apply Hend; lia. }
  destruct (decide (length middlewares <= index st)%nat) as [Hdone|Hmore].
  { by apply Hend. }
  simpl. rewrite decide_False by done.
  destruct (lookup_lt_is_Some_2 middlewares (index st)) as [m Hm]; [lia|].
  lookup_stage st m; [done|].
  pose proof (Forall_lookup_1 _ _ _ _ Hall Hm) as Hrel. simpl in Hrel.
  set (st1 := mkExec (S (index st)) (world st) (trace st ++ [StageRan (index st)])).
  destruct (run_relays_post
              (fun o st' =>
                 (exists w, o = (handler w).1) /\
                 trace st' =
                   trace st1 ++
                   (StageRan <$> seq (index st1) (length middlewares - index st1))
                   ++ [HandlerRan])
              (next middlewares context handler d) (m context) Hrel)
    with (st := st1) as (o & st' & Hr & Ho & Ht).
  - intros o st0 w [Ho Ht]. by split.
  - intros w.
    destruct (IH (mkExec (index st1) w (trace st1))) as (o & st' & Hn & Ho & Ht);
      [simpl; lia..|].
    by exists o, st'.
  - exists o, st'. split; [done|]. split; [done|]. rewrite Ht. simpl.
    replace (length middlewares - index st)%nat
      with (S (length middlewares - S (index st))) by lia.
    simpl. by rewrite <- app_assoc.
Qed.

(** X1.  In a chain whose stages all await [next()] once and hand on
    its outcome, the stages are invoked in the order of their
    registration, each once, then the terminal handler, and the chain
    ends with what the handler returned or threw; a stage added with
    [use] is the last before the handler. *)
Theorem relaying_chain_in_order (middlewares : list (MiddlewareFunction W V Ctx))
    (added : MiddlewareFunction W V Ctx) (context : Ctx)
    (handler : W -> Outcome V * W) (w : W) :
  Forall (fun m => Relays (m context)) middlewares ->
  Relays (added context) ->
  (exists w_in st,
      execute middlewares context handler w = Some ((handler w_in).1, st) /\
      trace st = (StageRan <$> seq 0 (length middlewares)) ++ [HandlerRan]) /\
  (exists w_in st,
      execute (use added middlewares) context handler w = Some ((handler w_in).1, st) /\
      trace st = (StageRan <$> seq 0 (length middlewares))
                 ++ [StageRan (length middlewares); HandlerRan]).
Proof.
  intros Hall Hadded. split.
  - destruct (next_relaying middlewares context handler Hall
                (length middlewares) (mkExec 0 w []))
      as (o & st & Hn & [w_in ->] & Ht); [simpl; lia..|].
    exists w_in, st. split; [done|]. rewrite Ht. simpl. by rewrite Nat.sub_0_r.
  - assert (Hall' : Forall (fun m => Relays (m context)) (use added middlewares)).
    { apply Forall_app. split; [done|]. by constructor. }
    destruct (next_relaying (use added middlewares) context handler Hall'
                (length (use added middlewares)) (mkExec 0 w []))
      as (o & st & Hn & [w_in ->] & Ht); [simpl; lia..|].
    exists w_in, st. split; [done|]. rewrite Ht. simpl. rewrite Nat.sub_0_r.
    unfold use. rewrite length_app. simpl.
    rewrite Nat.add_1_r, seq_S, fmap_app. simpl. by rewrite <- app_assoc.
Qed.

(** A stage that ends without [next()] after stages that hand on the
    outcome: its outcome is that of the chain and the handler is not
    invoked. *)
Lemma stop_after_relays (pre post : list (MiddlewareFunction W V Ctx))
    (stop : MiddlewareFunction W V Ctx) (context : Ctx)
    (handler : W -> Outcome V * W) (w : W) (o : Outcome V) :
  Forall (fun m => Relays (m context)) pre ->
  Yields o (stop context) ->
  exists st,
    execute (pre ++ stop :: post) context handler w = Some (o, st) /\
    existsb isHandlerRan (trace st) = false.
Proof.
  intros Hpre Hstop. unfold execute.
  destruct (next_relays pre post stop context handler o Hpre Hstop
              (length (pre ++ stop :: post)) (mkExec 0 w [])) as (st & Hn).
  { simpl. lia. }
  { rewrite length_app. simpl. lia. }
  destruct (next_short_circuit pre post stop context handler) with
    (depth := length (pre ++ stop :: post)) (st := mkExec 0 w [])
    as (o' & st' & Hn' & _ & ext & Ht & Hext).
  { eapply Forall_impl; [exact Hpre|]. intros m. apply Relays_at_most_once. }
  { by eapply Yields_never. }
  { simpl. lia. }
  { rewrite length_app. simpl. lia. }
  rewrite Hn in Hn'. injection Hn' as <- <-.
  exists st. split; [done|]. simpl in Ht. rewrite Ht.
  clear -Hext. induction Hext as [|e ext (j & -> & _) _ IH]; [done|]. done.
Qed.
End RelayingChains.

Lemma relaying_chain_in_order_witness :
  (exists w_in st,
      execute [Notes.note "a"; Notes.note "b"] tt Notes.terminal []
      = Some ((Notes.terminal w_in).1, st) /\
      trace st = (StageRan <$> seq 0 2) ++ [HandlerRan]) /\
  (exists w_in st,
      execute (use (Notes.note "c") [Notes.note "a"; Notes.note "b"]) tt Notes.terminal []
      = Some ((Notes.terminal w_in).1, st) /\
      trace st = (StageRan <$> seq 0 2) ++ [StageRan 2; HandlerRan]).
Proof.
  apply (relaying_chain_in_order [Notes.note "a"; Notes.note "b"] (Notes.note "c")
                                 tt Notes.terminal []).
  - repeat constructor; intros [v|e]; by constructor.
  - repeat constructor; intros [v|e]; by constructor.
Defined.

(** ** The validation and authentication stages *)

Section Gatekeepers.
Context {W V Ctx : Type}.

(** X2.  After stages that hand on the outcome, the validation stage
    ends a request whose context has no parameters with the failure
    "Missing parameters", the terminal handler not being invoked; for a
    context with parameters it only hands on the outcome of [next()]. *)
Theorem validation_stage {P : Type} (truthy : P -> bool)
    (pre post : list (MiddlewareFunction W V (MiddlewareContext P)))
    (context : MiddlewareContext P) (handler : W -> Outcome V * W) (w : W) :
  Forall (fun m => Relays (m context)) pre ->
  (truthy (params context) = false ->
   exists st,
     execute (pre ++ validationMiddleware truthy :: post) context handler w =
       Some (inr (ErrorObj "Missing parameters"), st) /\
     existsb isHandlerRan (trace st) = false) /\
  (truthy (params context) = true ->
   Relays (validationMiddleware (W := W) (V := V) truthy context)).
Proof.
  intros Hpre. split; intros Ht.
  - apply stop_after_relays; [done|].
    unfold validationMiddleware. rewrite Ht. simpl. by constructor.
  - unfold validationMiddleware. rewrite Ht. simpl.
    constructor. intros [v|e]; by constructor.
Qed.

(** X3.  The authentication stage refuses a request only when both
    the configured key and the key of the environment are non-empty
    strings and differ: then, after stages that hand on the outcome,
    the chain ends with "Unauthorized: Invalid API key" and the
    terminal handler is not invoked.  When either key is missing or
    empty, or when they are equal, the stage only hands on the outcome
    of [next()]. *)
Theorem authentication_stage (MCP_API_KEY apiKey : option string)
    (pre post : list (MiddlewareFunction W V Ctx))
    (context : Ctx) (handler : W -> Outcome V * W) (w : W) :
  Forall (fun m => Relays (m context)) pre ->
  (truthyString apiKey = true -> truthyString MCP_API_KEY = true ->
   apiKey <> MCP_API_KEY ->
   exists st,
     execute (pre ++ authenticationMiddleware MCP_API_KEY apiKey :: post)
             context handler w =
       Some (inr (ErrorObj "Unauthorized: Invalid API key"), st) /\
     existsb isHandlerRan (trace st) = false) /\
  (truthyString apiKey = false \/ truthyString MCP_API_KEY = false \/
   apiKey = MCP_API_KEY ->
   Relays (authenticationMiddleware (W := W) (V := V) MCP_API_KEY apiKey context)).
Proof.
  intros Hpre. split.
  - intros Ha He Hne. apply stop_after_relays; [done|].
    unfold authenticationMiddleware. rewrite Ha, He. simpl.
    rewrite bool_decide_eq_false_2 by done. simpl. by constructor.
  - intros Hopen. unfold authenticationMiddleware.
    assert (Hpass : Relays (AwaitNext Finish : Script W V)).
    { constructor. intros [v|e]; by constructor. }
    destruct (truthyString apiKey && truthyString MCP_API_KEY) eqn:Hboth; [|done].
    apply andb_true_iff in Hboth as [Ha He].
    destruct Hopen as [Hopen|[Hopen|Hopen]]; [congruence..|].
    by rewrite bool_decide_eq_true_2.
Qed.
End Gatekeepers.

Lemma validation_stage_witness :
  (exists st,
      execute ([Notes.note "a" ∘ (fun _ => tt)]
               ++ validationMiddleware (fun p : bool => p) :: [])
              (mkContext "tools/call" false 0) Notes.terminal [] =
        Some (inr (ErrorObj "Missing parameters"), st) /\
      existsb isHandlerRan (trace st) = false) /\
  Relays (validationMiddleware (W := list string) (V := string)
            (fun p : bool => p) (mkContext "tools/call" true 0)).
Proof.
  split.
  - apply (validation_stage (fun p : bool => p) [Notes.note "a" ∘ (fun _ => tt)] []
                            (mkContext "tools/call" false 0) Notes.terminal []).
    + repeat constructor; intros [v|e]; by constructor.
    + reflexivity.
  - apply (validation_stage (W := list string) (V := string) (fun p : bool => p) [] []
                            (mkContext "tools/call" true 0) Notes.terminal []).
    + constructor.
    + reflexivity.
Defined.

Lemma authentication_stage_witness :
  (exists st,
      execute ([] ++ authenticationMiddleware (Some "secret") (Some "guess") :: [])
              tt Notes.terminal [] =
        Some (inr (ErrorObj "Unauthorized: Invalid API key"), st) /\
      existsb isHandlerRan (trace st) = false) /\
  Relays (authenticationMiddleware (W := list string) (V := string) (Ctx := unit)
            None (Some "guess") tt).
Proof.
  split.
  - apply (authentication_stage (Some "secret") (Some "guess") [] [] tt Notes.terminal []).
    + constructor.
    + reflexivity.
    + reflexivity.
    + discriminate.
  - apply (authentication_stage (W := list string) (V := string)
             None (Some "guess") [] [] tt Notes.terminal []).
    + constructor.
    + right. left. reflexivity.
Defined.

(** ** Requests through the stages of the server *)

Section Served.
Context {Args Env : Type}.
Variables calculate readFile writeFile listDirectory :
  Args -> Env -> (ToolResult + Thrown) * Env.
Variable sources : ResourceSources Env.

Abbreviation terminalOf' :=
  (terminalOf calculate readFile writeFile listDirectory sources).
Abbreviation handleRequest' :=
  (handleRequest calculate readFile writeFile listDirectory sources).
Abbreviation serve' :=
  (serve calculate readFile writeFile listDirectory sources).

Implicit Types (w : World Env) (this : MCPTypeScriptServer).
Implicit Types (request : @Request Args).

(** The whole of a request through the two stages of the server. *)
Lemma pipeline_exact config (context : MiddlewareContext (Params Args))
    (handler : World Env -> Outcome Response * World Env) w :
  let requestsPerMinute := rateLimitRpm config in
  let start := clock w (ticks w) in
  let entered := acceptedWorld requestsPerMinute context w in
  execute (setupMiddleware config) context handler w =
  Some
    match (checkAndRecord requestsPerMinute "default" (clock w (S (ticks w)))
                          (requests w)).1 with
    | Rejected =>
        let o := inr (ErrorObj "Rate limit exceeded") in
        (o, mkExec 2 (closedWorld context start o entered) [StageRan 0; StageRan 1])
    | Accepted =>
        let '(o, w1) := handler entered in
        (o, mkExec 2 (closedWorld context start o w1)
                   [StageRan 0; StageRan 1; HandlerRan])
    end.
Proof.
  unfold execute, setupMiddleware, acceptedWorld, closedWorld, closingLine.
  cbn -[checkAndRecord].
  destruct (checkAndRecord _ _ _ _) as [[|] requests'] eqn:Hc;
    rewrite !decide_False by lia; cbn.
  - rewrite decide_True by lia.
    by destruct (handler _) as [[result|error] w1].
  - done.
Qed.

Lemma handleRequest_eq this (now : Z) request w :
  handleRequest' this now request w =
  execute (setupMiddleware (config this)) (contextOf request now)
          (terminalOf' this request) w.
Proof. by destruct request. Qed.

(** The terminal handlers leave the readings of the clock and the map
    of the rate limiter alone; only the read of the health resource
    takes a reading. *)
Lemma terminalOf_frame this request w :
  let w' := (terminalOf' this request w).2 in
  clock w' = clock w /\
  ticks w' = (ticks w + if readsClock this request then 1 else 0)%nat /\
  requests w' = requests w.
Proof.
  destruct request as [|name args| |uri]; cbn [terminalOf readsClock].
  - simpl. repeat split. lia.
  - unfold callToolHandler, callToolTry, callMethod, onEnv.
    repeat case_match; simplify_eq; simpl; repeat split; lia.
  - simpl. repeat split. lia.
  - unfold readResourceHandler.
    destruct (JsMap.get uri (resources this)) as [resource|] eqn:Hget.
    + rewrite (bool_decide_eq_true_2 (is_Some _)) by done. rewrite andb_true_r.
      repeat case_decide; simplify_eq; simpl;
        try rewrite bool_decide_eq_true_2 by done;
        try rewrite bool_decide_eq_false_2 by done;
        repeat split; lia.
    + rewrite (bool_decide_eq_false_2 (is_Some _)) by (by intros [? ?]).
      rewrite andb_false_r. simpl. repeat split. lia.
Qed.

Lemma handleRequest_step this (now : Z) request w :
  let check := checkAndRecord (rateLimitRpm (config this)) "default"
                              (clock w (S (ticks w))) (requests w) in
  let taken := clockReadings this request check.1 in
  exists o st,
    handleRequest' this now request w = Some (o, st) /\
    clock (world st) = clock w /\
    ticks (world st) = (ticks w + taken)%nat /\
    requests (world st) = check.2 /\
    verdictOf (trace st) = check.1 /\
    last (console (world st)) =
      Some (closingLine (contextOf request now)
              (clock w (ticks w + taken - 1)%nat - clock w (ticks w)) o).
Proof.
  intros check taken. rewrite handleRequest_eq, pipeline_exact. cbn zeta.
  subst taken. fold check. destruct check.1 eqn:Hv; unfold clockReadings.
  - pose proof (terminalOf_frame this request
                  (acceptedWorld (rateLimitRpm (config this))
                                 (contextOf request now) w)) as (Hc & Ht & Hr).
    destruct (terminalOf' this request _) as [o w1]. simpl in Hc, Ht, Hr.
    eexists _, _. split; [done|]. simpl. rewrite Hc, Ht, Hr. simpl.
    split; [done|]. split; [destruct (readsClock this request); lia|].
    split; [done|]. split; [done|].
    rewrite last_snoc. do 3 f_equal. f_equal.
    destruct (readsClock this request); lia.
  - eexists _, _. split; [done|]. simpl.
    split; [done|]. split; [lia|]. split; [done|]. split; [done|].
    rewrite last_snoc. do 3 f_equal. f_equal. lia.
Qed.

(** X4.  Every request ends, and the logging stage ends it with one
    line on the console that tells its outcome: "Completed" for a
    result, "Failed" with the very failure the chain ends with; the
    duration is the difference of the last and the first reading of
    the clock that the request takes, which are three, or four when
    the health resource is read. *)
Theorem logging_reports_every_outcome this (now : Z) request w :
  let verdict :=
    (checkAndRecord (rateLimitRpm (config this)) "default"
                    (clock w (S (ticks w))) (requests w)).1 in
  let taken := clockReadings this request verdict in
  let duration := clock w (ticks w + taken - 1)%nat - clock w (ticks w) in
  exists o st,
    handleRequest' this now request w = Some (o, st) /\
    ticks (world st) = (ticks w + taken)%nat /\
    last (console (world st)) =
      Some match o with
           | inl _ => Completed now (method (contextOf request now)) duration
           | inr error => Failed now (method (contextOf request now)) duration error
           end.
Proof.
  intros verdict taken duration.
  destruct (handleRequest_step this now request w)
    as (o & st & He & _ & Ht & _ & _ & Hl).
  exists o, st. split; [done|]. split; [done|]. rewrite Hl. unfold closingLine.
  by destruct request, o.
Qed.

(** X5.  The requests of all four methods count against one window.
    For any sequence of requests handled one after the other, which of
    them reach their terminal handler is what the checks of the rate
    limiter for the client "default" give at the second clock reading
    of each request, and the map of the rate limiter after the last
    request is the map after those checks: no terminal handler touches
    it. *)
Theorem requests_share_one_window this (incoming : list (Z * @Request Args)) w :
  let times := checkTimes this (clock w) (ticks w) incoming (requests w) in
  let checks := checkAll (rateLimitRpm (config this)) "default" times (requests w) in
  let served := serve' this incoming w in
  (verdictOf ∘ snd) <$> served.1 = checks.1 /\
  requests served.2 = checks.2 /\
  length served.1 = length incoming.
Proof.
  revert w. induction incoming as [|[now request] later IH]; intros w; [done|].
  cbn zeta. cbn [checkTimes serve].
  destruct (handleRequest_step this now request w)
    as (o & st & He & Hc & Ht & Hr & Hv & _).
  rewrite He. specialize (IH (world st)). cbn zeta in IH.
  rewrite Hc, Ht, Hr in IH.
  destruct (checkAndRecord _ _ _ _) as [a requests1] eqn:Hcheck.
  cbn [fst snd] in Hv, IH, Ht. cbn [checkAll]. rewrite Hcheck.
  destruct (serve' this later (world st)) as [answers final].
  destruct (checkAll _ _ _ requests1) as [outcomes map_after].
  cbn [fst snd] in *. destruct IH as (IH1 & IH2 & IH3).
  rewrite fmap_cons, IH1. cbn [length compose snd]. by rewrite Hv, IH3.
Qed.
End Served.

(** A read of the health resource takes a fourth reading of the clock,
    which moves the reading at which the next request is checked: with
    a clock that advances by one at each reading, the request after it
    is checked at the reading 5, the one after a listing at 4. *)
Example health_read_moves_the_checks :
  checkTimes (newServer defaultConfig) Z.of_nat 0
    [(0, @ReadResourceRequest string "health://status.json"); (0, ListToolsRequest)] ∅
  = [1; 5] /\
  checkTimes (newServer defaultConfig) Z.of_nat 0
    [(0, @ListResourcesRequest string); (0, ListToolsRequest)] ∅
  = [1; 4].
Proof. vm_compute. done. Qed.

(** The line that ends a read of the health resource tells the
    difference of the fourth and the first reading, and the request
    after it is checked at the sixth reading. *)
Example health_read_duration :
  let served :=
    serve echo echo echo echo plainSources (newServer (mkServerConfig 1 true true))
          [(0, ReadResourceRequest "health://status.json"); (0, ListToolsRequest)]
          (mkWorld Z.of_nat 0 ∅ [] [] tt) in
  console served.2 =
    [Starting 0 "resources/read"; Completed 0 "resources/read" 3;
     Starting 0 "tools/list";
     Failed 0 "tools/list" 2 (ErrorObj "Rate limit exceeded")] /\
  requests served.2 = <["default" := [1]]> ∅.
Proof. vm_compute. done. Qed.

(** ** The logger and the registry *)

(** X6.  [Logger.log] never keeps more than 1000 entries, whatever it
    held before; the entry just logged is the newest; and below the
    limit nothing is dropped. *)
Theorem logger_keeps_most_recent {Env : Type} (level : Level) (message : string)
    (w : World Env) :
  let after := logs (logger_log level message w) in
  (length after <= 1000)%nat /\
  last after = Some (level, message) /\
  (exists dropped, logs w ++ [(level, message)] = dropped ++ after) /\
  ((length (logs w) < 1000)%nat -> after = logs w ++ [(level, message)]).
Proof.
  unfold logger_log. simpl.
  set (pushed := logs w ++ [(level, message)]).
  assert (Hlen : length pushed = S (length (logs w))).
  { subst pushed. rewrite length_app. simpl. lia. }
  destruct (decide (1000 < length pushed)%nat) as [Hover|Hfits].
  - repeat split.
    + rewrite length_drop. lia.
    + subst pushed. rewrite drop_app_le by lia. by rewrite last_snoc.
    + exists (take (length pushed - 1000) pushed). by rewrite take_drop.
    + lia.
  - repeat split.
    + lia.
    + subst pushed. by rewrite last_snoc.
    + by exists [].
Qed.

Section Registry.
Context {Args Env : Type}.
Variables calculate readFile writeFile listDirectory :
  Args -> Env -> (ToolResult + Thrown) * Env.

(** X7.  For a name that [initializeTools] has bound, the terminal
    handler of tools/call answers with what the tool body bound to the
    name does: its result as it is, or, when the body throws, the error
    result made of its message.  "not found", "Unknown tool method" and
    a missing method do not occur for such a name. *)
Theorem registered_tool_outcome config (name : string) (args : Args) (tool : Tool)
    (w : World Env) :
  JsMap.get name (initializeTools config) = Some tool ->
  exists body,
    handlerOf calculate readFile writeFile listDirectory name = Some body /\
    (callToolHandler calculate readFile writeFile listDirectory
       (initializeTools config) name args w).1 =
    inl (CallToolResult
           match (body args (env w)).1 with
           | inl result => result
           | inr error => errorResult (errorMessageOf error)
           end).
Proof.
  intros Hget.
  destruct (initializeTools_bound _ _ _ Hget) as [[-> ->]|[[-> ->]|[[-> ->]|[-> ->]]]];
    eexists; (split; [reflexivity|]);
    unfold callToolHandler, callToolTry; rewrite Hget;
    unfold callMethod; repeat case_decide; try congruence;
    unfold onEnv; simpl;
    match goal with |- context [?f args (env w)] => destruct (f args (env w)) as [[r|e] e'] end;
    done.
Qed.

(** X8.  The names bound in the map of tools are those of the enabled
    families and no others: "calculate" with the calculator enabled,
    the three file names with the file manager enabled; and the
    tools/list handler returns as many definitions as names are
    bound. *)
Theorem registry_follows_configuration config (name : string) (tool : Tool)
    (w : World Env) :
  (JsMap.get name (initializeTools config) = Some tool <->
   (calculatorEnabled config = true /\ name = "calculate" /\ tool = CalculatorTool) \/
   (fileManagerEnabled config = true /\
    (name = "read_file" \/ name = "write_file" \/ name = "list_directory") /\
    tool = FileManagerTool)) /\
  (exists definitions,
      listToolsHandler (initializeTools config) w = (inl (ToolsList definitions), w) /\
      length definitions = JsMap.size (initializeTools config) /\
      length definitions =
        ((if calculatorEnabled config then 1 else 0) +
         (if fileManagerEnabled config then 3 else 0))%nat).
Proof.
  split.
  - unfold initializeTools.
    destruct (calculatorEnabled config), (fileManagerEnabled config); simpl;
      repeat case_decide; intuition congruence.
  - unfold initializeTools, listToolsHandler.
    destruct (calculatorEnabled config), (fileManagerEnabled config);
      eexists; (split; [reflexivity|done]).
Qed.
End Registry.

(** ** The calculator *)

Section CalculatorFacts.
Import Calculator.

Lemma prefix_empty (p : string) : String.prefix p "" = true -> p = "".
Proof. by destruct p. Qed.

Lemma prefix_cons (a b : ascii) (p s : string) :
  String.prefix (String a p) (String b s) = true <->
  a = b /\ String.prefix p s = true.
Proof.
  simpl. destruct (Ascii.ascii_dec a b) as [->|Hne]; [tauto|].
  split; [discriminate|]. intros [Heq _]. contradiction.
Qed.

Lemma prefix_refl (s : string) : String.prefix s s = true.
Proof.
  induction s as [|a s IH]; [done|]. by apply prefix_cons.
Qed.

Lemma balancedFrom_spec (s : string) :
  forall count, 0 <= count ->
    balancedFrom count s = true <->
    (forall p, String.prefix p s = true ->
               0 <= count + occurrences "(" p - occurrences ")" p) /\
    count + occurrences "(" s - occurrences ")" s = 0.
Proof.
  induction s as [|char rest IH]; intros count Hcount.
  - simpl. rewrite bool_decide_eq_true. split.
    + intros ->. split; [|done]. intros p Hp. apply prefix_empty in Hp as ->.
      simpl. lia.
    + intros [_ H]. lia.
  - cbn [balancedFrom occurrences].
    set (up := if Ascii.eqb char "(" then 1 else 0).
    set (down := if Ascii.eqb char ")" then 1 else 0).
    assert (Hup : 0 <= up <= 1) by (subst up; destruct (Ascii.eqb char "("); lia).
    assert (Hdown : 0 <= down <= 1) by (subst down; destruct (Ascii.eqb char ")"); lia).
    set (count1 := if Ascii.eqb char "(" then count + 1 else count).
    set (count2 := if Ascii.eqb char ")" then count1 - 1 else count1).
    assert (Hc2 : count2 = count + up - down).
    { subst count2 count1 up down.
      destruct (Ascii.eqb char "("), (Ascii.eqb char ")"); lia. }
    destruct (bool_decide (count2 < 0)) eqn:Hneg.
    + apply bool_decide_eq_true in Hneg. split; [discriminate|].
      intros [Hpre _]. specialize (Hpre (String char "")).
      rewrite prefix_cons in Hpre. cbn [occurrences] in Hpre.
      fold up down in Hpre.
      assert (Hnil : String.prefix "" rest = true) by (by destruct rest).
      specialize (Hpre (conj eq_refl Hnil)). lia.
    + apply bool_decide_eq_false in Hneg.
      rewrite (IH count2) by lia. split.
      * intros [Hpre Hend]. split; [|lia].
        intros [|a p] Hp; [simpl; lia|].
        apply prefix_cons in Hp as [-> Hp]. cbn [occurrences]. fold up down.
        specialize (Hpre p Hp). lia.
      * intros [Hpre Hend]. split; [|lia].
        intros p Hp. specialize (Hpre (String char p)).
        rewrite prefix_cons in Hpre. cbn [occurrences] in Hpre. fold up down in Hpre.
        specialize (Hpre (conj eq_refl Hp)). lia.
Qed.

(** X9.  [isBalancedParentheses] holds of a text exactly when no
    prefix of it has more closing than opening parentheses and the
    whole text has as many of the one as of the other. *)
Theorem isBalancedParentheses_spec (expression : string) :
  isBalancedParentheses expression = true <->
  (forall p, String.prefix p expression = true ->
             occurrences ")" p <= occurrences "(" p) /\
  occurrences "(" expression = occurrences ")" expression.
Proof.
  unfold isBalancedParentheses. rewrite balancedFrom_spec by lia. split.
  - intros [Hpre Hend]. split; [|lia]. intros p Hp. specialize (Hpre p Hp). lia.
  - intros [Hpre Hend]. split; [|lia]. intros p Hp. specialize (Hpre p Hp). lia.
Qed.

Lemma sanitize_length (s : string) : (String.length (sanitize s) <= String.length s)%nat.
Proof.
  induction s as [|c s IH]; simpl; [done|].
  destruct (allowedChar c); simpl; lia.
Qed.

(** The sanitizing replacement leaves a text as it is exactly when
    every character of it is in the class. *)
Lemma sanitize_unchanged (s : string) :
  sanitize s = s <-> Forall (fun c => allowedChar c = true) (String.list_ascii_of_string s).
Proof.
  induction s as [|c s IH]; simpl.
  - split; [constructor|done].
  - destruct (allowedChar c) eqn:Hc.
    + split.
      * intros [= Hs]. constructor; [done|]. by apply IH.
      * intros Hall. apply Forall_cons in Hall as [_ Hall]. f_equal. by apply IH.
    + split.
      * intros Hs. pose proof (sanitize_length s) as Hlen.
        rewrite Hs in Hlen. simpl in Hlen. lia.
      * intros Hall. apply Forall_cons in Hall as [Hc' _]. congruence.
Qed.

Variable Num : Type.
Variable isFinite : Num -> bool.
Variable numberToString : Num -> string.
Variable runFunction : string -> JsValue Num + Thrown.

Variable destructureMessage : Nullish -> string.

Abbreviation calculate' :=
  (calculate isFinite numberToString runFunction destructureMessage).

(** The checks that stand before the evaluation. *)
Lemma calculate_evaluated (args : ToolArgs (option string)) :
  (calculate' args).2 =
  match args with
  | ArgsWith (Some e) =>
      if negb (String.eqb e "") && String.eqb (sanitize e) e && isBalancedParentheses e
      then [e] else []
  | _ => []
  end.
Proof.
  destruct args as [value|[[|c e]|]]; [done|done| |done].
  unfold calculate. cbn [String.eqb negb andb].
  destruct (String.eqb (sanitize (String c e)) (String c e)) eqn:Hs; [|done].
  apply String.eqb_eq in Hs. rewrite Hs. simpl.
  destruct (isBalancedParentheses (String c e)); simpl; [|done].
  by destruct (evaluateExpression _ _ _).
Qed.

(** What [calculate] answers once the checks are passed. *)
Lemma calculate_checked (e : string) :
  e <> "" -> sanitize e = e -> isBalancedParentheses e = true ->
  calculate' (ArgsWith (Some e)) =
  match evaluateExpression isFinite runFunction e with
  | inl result =>
      (mkToolResult [textPart ("Result: " +:+ e +:+ " = " +:+ numberToString result)]
                    None, [e])
  | inr (ErrorObj message) =>
      (mkToolResult [textPart ("Error: " +:+ message)] (Some true), [e])
  | inr NonError =>
      (mkToolResult [textPart "Error: Calculation failed"] (Some true), [e])
  end.
Proof.
  intros He Hs Hb. destruct e as [|c e]; [done|].
  unfold calculate. rewrite Hs, String.eqb_refl, Hb. cbn [negb].
  cbn [String.length Nat.eqb].
  by destruct (evaluateExpression _ _ _) as [result|[message|]].
Qed.

(** X10.  [calculate] hands a text to the evaluation at most once, and
    only a text that is the whole non-empty expression, made of digits
    and of the characters [+ - * / . ( )] and the space only, with
    balanced parentheses: nothing else reaches [new Function]. *)
Theorem calculate_evaluates_only_checked_text (args : ToolArgs (option string)) :
  (length (calculate' args).2 <= 1)%nat /\
  forall text,
    text ∈ (calculate' args).2 ->
    args = ArgsWith (Some text) /\
    text <> "" /\
    Forall (fun c => allowedChar c = true) (String.list_ascii_of_string text) /\
    isBalancedParentheses text = true.
Proof.
  rewrite calculate_evaluated. destruct args as [value|[e|]].
  - simpl. split; [lia|]. intros text Hin. by apply elem_of_nil in Hin.
  - destruct (String.eqb e "") eqn:He; simpl.
    { split; [lia|]. intros text Hin. by apply elem_of_nil in Hin. }
    destruct (String.eqb (sanitize e) e) eqn:Hs; simpl.
    2:{ split; [lia|]. intros text Hin. by apply elem_of_nil in Hin. }
    destruct (isBalancedParentheses e) eqn:Hb; simpl.
    2:{ split; [lia|]. intros text Hin. by apply elem_of_nil in Hin. }
    split; [lia|]. intros text Hin. apply list_elem_of_singleton in Hin as ->.
    apply String.eqb_neq in He. apply String.eqb_eq in Hs.
    by rewrite <- sanitize_unchanged.
  - simpl. split; [lia|]. intros text Hin. by apply elem_of_nil in Hin.
Qed.

(** X11.  [validateExpression] accepts an expression exactly when
    [calculate] goes as far as evaluating it. *)
Theorem validateExpression_agrees (expression : option string) :
  (validateExpression expression).1 = true <->
  (calculate' (ArgsWith expression)).2 <> [].
Proof.
  rewrite calculate_evaluated. destruct expression as [[|c e]|]; [done| |done].
  unfold validateExpression. cbn [String.eqb negb andb].
  destruct (String.eqb (sanitize (String c e)) (String c e)) eqn:Hs; [|done].
  apply String.eqb_eq in Hs. rewrite Hs. simpl.
  by destruct (isBalancedParentheses (String c e)).
Qed.

(** X12.  [calculate] reports a result only for a finite number.  Its
    answer is not an error exactly when the arguments have a text for
    expression that is not empty, is made of the allowed characters
    only, has balanced parentheses and evaluates to a number that
    [isFinite] accepts; the answer is then "Result: expression =
    number" with no [isError], and in every other case [isError] is
    true. *)
Theorem calculate_result_is_finite_number (args : ToolArgs (option string)) :
  (isError (calculate' args).1 <> Some true <->
   exists e n,
     args = ArgsWith (Some e) /\
     e <> "" /\
     Forall (fun c => allowedChar c = true) (String.list_ascii_of_string e) /\
     isBalancedParentheses e = true /\
     runFunction ("return (" +:+ e +:+ ")") = inl (JsNumber n) /\
     isFinite n = true) /\
  (forall e n,
     args = ArgsWith (Some e) ->
     e <> "" ->
     Forall (fun c => allowedChar c = true) (String.list_ascii_of_string e) ->
     isBalancedParentheses e = true ->
     runFunction ("return (" +:+ e +:+ ")") = inl (JsNumber n) ->
     isFinite n = true ->
     (calculate' args).1 =
       mkToolResult [textPart ("Result: " +:+ e +:+ " = " +:+ numberToString n)] None) /\
  (isError (calculate' args).1 = None \/ isError (calculate' args).1 = Some true).
Proof.
  assert (Hpass : forall e n,
             e <> "" ->
             Forall (fun c => allowedChar c = true) (String.list_ascii_of_string e) ->
             isBalancedParentheses e = true ->
             runFunction ("return (" +:+ e +:+ ")") = inl (JsNumber n) ->
             isFinite n = true ->
             (calculate' (ArgsWith (Some e))).1 =
               mkToolResult
                 [textPart ("Result: " +:+ e +:+ " = " +:+ numberToString n)] None).
  { intros e n He Hs Hb Hrun Hfin. apply sanitize_unchanged in Hs.
    rewrite calculate_checked by done. unfold evaluateExpression.
    by rewrite Hrun, Hfin. }
  split; [split|split].
  - destruct args as [value|[[|c e]|]]; [done|done| |done].
    unfold calculate. cbn [String.eqb negb andb].
    destruct (String.eqb (sanitize (String c e)) (String c e)) eqn:Hs; [|done].
    apply String.eqb_eq in Hs. rewrite Hs. simpl.
    destruct (isBalancedParentheses (String c e)) eqn:Hb; simpl; [|done].
    unfold evaluateExpression.
    destruct (runFunction _) as [[n|]|[m|]] eqn:Hrun; simpl; try done.
    destruct (isFinite n) eqn:Hfin; simpl; [|done].
    intros _. exists (String c e), n. by rewrite <- sanitize_unchanged.
  - intros (e & n & -> & He & Hs & Hb & Hrun & Hfin).
    by rewrite (Hpass e n).
  - intros e n -> He Hs Hb Hrun Hfin. by apply Hpass.
  - destruct args as [value|[[|c e]|]]; [by right|by right| |by right].
    unfold calculate. cbn [String.eqb negb andb].
    destruct (String.eqb (sanitize (String c e)) (String c e)); [|by right].
    destruct (_ =? _)%nat; [by right|].
    destruct (isBalancedParentheses _); simpl; [|by right].
    destruct (evaluateExpression _ _ _) as [result|[message|]];
      first [by left|by right].
Qed.

(** X13.  Every answer of [calculate] is of one of six kinds: the
    error of the engine when the arguments are [undefined] or [null],
    the three refusals of the checks, a failed evaluation, or a
    result.  The branches of the messages "Expression cannot be empty
    after sanitization" and "Calculation failed" are never taken: an
    empty expression is refused before the first, and whatever is
    thrown inside the [try] block is an [Error]. *)
Theorem calculate_answers (args : ToolArgs (option string)) :
  exists text,
    content (calculate' args).1 = [textPart text] /\
    ((exists value, args = NullishArgs value /\
                    text = "Error: " +:+ destructureMessage value) \/
     text = "Error: Expression must be a non-empty string" \/
     text = "Error: Expression contains invalid characters" \/
     text = "Error: Unbalanced parentheses in expression" \/
     (exists reason, text = "Error: Failed to evaluate expression" +:+ reason) \/
     (exists e n, args = ArgsWith (Some e) /\
                  text = "Result: " +:+ e +:+ " = " +:+ numberToString n)).
Proof.
  destruct args as [value|[[|c e]|]];
    [by eexists; eauto|by eexists; eauto| |by eexists; eauto].
  unfold calculate. cbn [String.eqb negb andb].
  destruct (String.eqb (sanitize (String c e)) (String c e)) eqn:Hs;
    [|by eexists; eauto].
  apply String.eqb_eq in Hs. rewrite Hs. simpl.
  destruct (isBalancedParentheses (String c e)); simpl; [|by eexists; eauto 6].
  unfold evaluateExpression.
  destruct (runFunction _) as [[n|]|[m|]]; simpl.
  - destruct (isFinite n); simpl.
    + eexists. split; [done|]. do 5 right. by exists (String c e), n.
    + eexists. split; [done|]. do 4 right. left.
      by exists ": Result is not a finite number (division by zero or overflow)".
  - eexists. split; [done|]. do 4 right. left.
    by exists ": Expression did not evaluate to a number".
  - eexists. split; [done|]. do 4 right. left. by exists (": " +:+ m).
  - eexists. split; [done|]. do 4 right. left. by exists "".
Qed.
End CalculatorFacts.

(** ** The file manager *)

Lemma prefix_exists (a r : string) :
  String.prefix a r = true <-> exists rest, r = a +:+ rest.
Proof.
  split.
  - revert r. induction a as [|c a IH]; intros r Hp.
    + by exists r.
    + destruct r as [|c' r]; [done|].
      apply prefix_cons in Hp as [-> Hp]. destruct (IH r Hp) as [rest ->].
      by exists rest.
  - intros [rest ->]. apply prefix_append.
Qed.

Section FileManagerFacts.
Import FileManager.
Variable Fs : Type.
Variable resolve : string -> string.
Variable dirname : string -> string.
Variables dataDir tempDir : string.
Variable stat : string -> Fs -> Stats + Thrown.
Variable readFileUtf8 : string -> Fs -> string + Thrown.
Variable mkdir : string -> Fs -> (unit + Thrown) * Fs.
Variable writeFileUtf8 : string -> string -> Fs -> (unit + Thrown) * Fs.

Variable propertyOfNullish : Nullish -> string.
Variable byteLengthError : Field -> Thrown.

Abbreviation validatePath' := (validatePath resolve dataDir tempDir).
Abbreviation readFile' :=
  (readFile Fs resolve dataDir tempDir stat readFileUtf8 propertyOfNullish).
Abbreviation writeFile' :=
  (writeFile Fs resolve dirname dataDir tempDir mkdir writeFileUtf8
             propertyOfNullish byteLengthError).

(** X14.  [validatePath] accepts a path exactly when it is not empty
    and its resolved form begins, as a string, with one of the two
    allowed paths, and then returns the resolved form; whatever
    follows the allowed path is accepted, a separator or not. *)
Theorem validatePath_accepts_by_prefix (userPath resolvedPath : string) :
  validatePath resolve dataDir tempDir userPath = inl resolvedPath <->
  userPath <> "" /\
  resolvedPath = resolve userPath /\
  exists allowedPath rest,
    (allowedPath = dataDir \/ allowedPath = tempDir) /\
    resolvedPath = allowedPath +:+ rest.
Proof.
  unfold validatePath, allowedPaths. simpl. rewrite orb_false_r.
  destruct (String.eqb userPath "") eqn:He.
  { apply String.eqb_eq in He. split; [done|]. by intros [? _]. }
  apply String.eqb_neq in He.
  destruct (String.prefix dataDir (resolve userPath)) eqn:Hd; simpl.
  - split.
    + intros [= <-]. apply prefix_exists in Hd as [rest Hrest]. eauto 8.
    + intros (_ & -> & _). done.
  - destruct (String.prefix tempDir (resolve userPath)) eqn:Ht; simpl.
    + split.
      * intros [= <-]. apply prefix_exists in Ht as [rest Hrest]. eauto 8.
      * intros (_ & -> & _). done.
    + split; [done|]. intros (_ & -> & allowedPath & rest & [->| ->] & Hrest).
      * assert (String.prefix dataDir (resolve userPath) = true)
          by (apply prefix_exists; eauto). congruence.
      * assert (String.prefix tempDir (resolve userPath) = true)
          by (apply prefix_exists; eauto). congruence.
Qed.

(** X15.  [writeFile] changes the file system only by creating the
    directory of a validated path and writing the content to that
    path, and only for a content that is a text, not empty and not
    above the size limit; with an empty path nothing is written, and
    with an empty content nothing is written and the answer is an
    error. *)
Theorem writeFile_touches_only_validated (args : ToolArgs FileProps)
    (path : string) (content : Field) (fs : Fs) :
  ((writeFile' args fs).2 = fs \/
   exists userPath text safePath,
     args = ArgsWith (mkFileProps (FString userPath) (FString text)) /\
     validatePath' userPath = inl safePath /\
     text <> "" /\
     Z.of_nat (String.length text) <= maxFileSize /\
     ((writeFile' args fs).2 = (mkdir (dirname safePath) fs).2 \/
      (writeFile' args fs).2 =
        (writeFileUtf8 safePath text (mkdir (dirname safePath) fs).2).2)) /\
  (writeFile' (ArgsWith (mkFileProps (FString "") content)) fs).2 = fs /\
  writeFile' (ArgsWith (mkFileProps (FString path) (FString ""))) fs =
    (inl (mkToolResult
            [textPart ("Error writing file: " +:+ path
                       +:+ ": Content is required for write operation")]
            (Some true)), fs).
Proof.
  split; [|split].
  - destruct args as [value|[[userPath|t text] [content0|t0 text0]]]; try (by left).
    + unfold writeFile. cbn [args_path args_content truthy].
      destruct (String.eqb content0 "") eqn:He; [by left|].
      apply String.eqb_neq in He. cbn [negb].
      destruct (validatePath' userPath) as [safePath|error] eqn:Hv; [|by left].
      destruct (bool_decide _) eqn:Hsize; [by left|].
      apply bool_decide_eq_false in Hsize.
      right. exists userPath, content0, safePath.
      split; [done|]. split; [done|]. split; [done|]. split; [lia|].
      destruct (mkdir _ fs) as [[[]|error] fs1]; simpl; [|by left].
      destruct (writeFileUtf8 _ _ fs1) as [[[]|error] fs2]; simpl; by right.
    + left. unfold writeFile. cbn [args_path args_content truthy].
      destruct t0; cbn [negb]; [|done].
      by destruct (validatePath' userPath).
    + left. unfold writeFile. cbn [args_path args_content truthy].
      by destruct (negb _).
    + left. unfold writeFile. cbn [args_path args_content truthy].
      by destruct (negb _).
  - unfold writeFile, validatePath. cbn [args_path args_content]. simpl.
    by destruct (negb _).
  - done.
Qed.

(** X16.  [readFile] answers with the content of a file exactly when
    the path is a text that is validated, the file can be examined,
    its size is not above 10 MiB and it can be read, and the answer is
    then the text with the path, the size, the date and the content.
    It rejects, and answers nothing, exactly when the arguments are
    [undefined] or [null] or the path is a value that has no
    conversion to a string.  Every other answer is an error result
    that names the path. *)
Theorem readFile_checks (args : ToolArgs FileProps) (fs : Fs) :
  ((exists result, readFile' args fs = inl result /\ isError result = None) <->
   exists userPath content safePath stats text,
     args = ArgsWith (mkFileProps (FString userPath) content) /\
     validatePath' userPath = inl safePath /\
     stat safePath fs = inl stats /\
     size stats <= 10 * 1024 * 1024 /\
     readFileUtf8 safePath fs = inl text) /\
  (forall userPath content safePath stats text,
     args = ArgsWith (mkFileProps (FString userPath) content) ->
     validatePath' userPath = inl safePath ->
     stat safePath fs = inl stats ->
     size stats <= 10 * 1024 * 1024 ->
     readFileUtf8 safePath fs = inl text ->
     readFile' args fs =
       inl (mkToolResult
              [textPart ("File: " +:+ userPath +:+ newline
                         +:+ "Size: " +:+ pretty (size stats) +:+ " bytes" +:+ newline
                         +:+ "Modified: " +:+ mtime stats +:+ newline +:+ newline
                         +:+ "Content:" +:+ newline +:+ text)]
              None)) /\
  (forall error,
     readFile' args fs = inr error <->
     (exists value, args = NullishArgs value /\
                    error = ErrorObj (propertyOfNullish value)) \/
     (exists t content, args = ArgsWith (mkFileProps (FOther t (inr error)) content))) /\
  (forall result,
     readFile' args fs = inl result ->
     isError result = None \/
     isError result = Some true /\
     exists properties pathText message,
       args = ArgsWith properties /\
       shown (args_path properties) = inl pathText /\
       content result =
         [textPart ("Error reading file: " +:+ pathText +:+ ": " +:+ message)]).
Proof.
  assert (Hpass : forall userPath content safePath stats text,
             validatePath' userPath = inl safePath ->
             stat safePath fs = inl stats ->
             size stats <= 10 * 1024 * 1024 ->
             readFileUtf8 safePath fs = inl text ->
             readFile' (ArgsWith (mkFileProps (FString userPath) content)) fs =
               inl (mkToolResult
                      [textPart ("File: " +:+ userPath +:+ newline
                                 +:+ "Size: " +:+ pretty (size stats) +:+ " bytes"
                                 +:+ newline
                                 +:+ "Modified: " +:+ mtime stats +:+ newline +:+ newline
                                 +:+ "Content:" +:+ newline +:+ text)]
                      None)).
  { intros userPath content safePath stats text Hv Hs Hsize Hr.
    unfold readFile. cbn [args_path]. rewrite Hv, Hs, Hr.
    rewrite bool_decide_eq_false_2; [done|]. unfold maxFileSize. lia. }
  split; [split|split; [|split]].
  - intros (result & Hres & Hok).
    destruct args as [value|[[userPath|t shownPath] content]]; [done| |].
    + unfold readFile in Hres. cbn [args_path] in Hres.
      destruct (validatePath' userPath) as [safePath|error] eqn:Hv.
      2:{ unfold caught in Hres. simpl in Hres. by injection Hres as <-. }
      destruct (stat safePath fs) as [stats|error] eqn:Hs.
      2:{ unfold caught in Hres. simpl in Hres. by injection Hres as <-. }
      destruct (bool_decide _) eqn:Hsize.
      { unfold caught in Hres. simpl in Hres. by injection Hres as <-. }
      apply bool_decide_eq_false in Hsize. unfold maxFileSize in Hsize.
      destruct (readFileUtf8 safePath fs) as [text|error] eqn:Hr.
      2:{ unfold caught in Hres. simpl in Hres. by injection Hres as <-. }
      exists userPath, content, safePath, stats, text.
      split; [done|]. split; [done|]. split; [done|]. split; [lia|done].
    + unfold readFile, caught in Hres. cbn [args_path shown] in Hres.
      destruct shownPath as [pathText|thrown]; [|done].
      by injection Hres as <-.
  - intros (userPath & content & safePath & stats & text & -> & Hv & Hs & Hsize & Hr).
    eexists. split; [by apply (Hpass userPath content safePath stats text)|done].
  - intros userPath content safePath stats text -> Hv Hs Hsize Hr.
    by apply (Hpass userPath content safePath stats text).
  - intros error. split.
    + destruct args as [value|[[userPath|t shownPath] content]].
      * intros [= <-]. left. by exists value.
      * unfold readFile, caught. cbn [args_path shown].
        by repeat case_match.
      * unfold readFile, caught. cbn [args_path shown].
        destruct shownPath as [pathText|thrown]; [done|].
        intros [= <-]. right. by exists t, content.
    + intros [(value & -> & ->)|(t & content & ->)]; done.
  - intros result Hres.
    destruct args as [value|[[userPath|t shownPath] content]]; [done| |].
    + unfold readFile, caught in Hres. cbn [args_path shown] in Hres.
      repeat case_match; simplify_eq; (by left) || (right; split; [done|]);
        eexists _, _, _; (split; [done|]); (split; [done|]);
        unfold handleError; simpl; reflexivity.
    + unfold readFile, caught in Hres. cbn [args_path shown] in Hres.
      destruct shownPath as [pathText|thrown]; [|done].
      injection Hres as <-. right. split; [done|].
      eexists _, _, _. split; [done|]. split; [done|].
      unfold handleError. simpl. reflexivity.
Qed.
End FileManagerFacts.

(** ** The monitoring loop *)

Section MonitorFacts.
Import Monitor.

(** X17.  With timer identifiers handed out in increasing order:
    stopping twice is stopping once; starting and then stopping leaves
    the running timers as they were; but after a second start the
    timer of the first is out of reach, and still runs after a stop. *)
Theorem monitoring_timers (s : State) :
  wellFormed (timers s) ->
  stopMonitoring (stopMonitoring s) = stopMonitoring s /\
  running (timers (stopMonitoring (startMonitoring s))) = running (timers s) /\
  upcoming (timers s) ∈
    running (timers (stopMonitoring (startMonitoring (startMonitoring s)))) /\
  wellFormed (timers (stopMonitoring (startMonitoring s))).
Proof.
  intros Hwf. destruct s as [field [run nxt]]. unfold wellFormed in *. simpl in *.
  assert (Hfresh : nxt ∉ run).
  { intros Hin. specialize (Hwf nxt Hin). lia. }
  repeat split.
  - unfold stopMonitoring. destruct field as [id|]; simpl; [|done].
    unfold clearInterval. simpl. do 2 f_equal.
    apply set_eq. intros x. rewrite !elem_of_difference. tauto.
  - apply set_eq. intros x.
    rewrite elem_of_difference, elem_of_union, !elem_of_singleton.
    split; [intros [[->|Hx] Hne]; [done|done]|].
    intros Hx. split; [by right|]. intros ->. done.
  - apply elem_of_difference. split.
    + apply elem_of_union. right. apply elem_of_union. left. by apply elem_of_singleton.
    + intros Hin. apply elem_of_singleton in Hin. lia.
  - intros id Hin. apply elem_of_difference in Hin as [Hin _].
    apply elem_of_union in Hin as [Hin|Hin].
    + apply elem_of_singleton in Hin. lia.
    + specialize (Hwf id Hin). lia.
Qed.

Lemma monitoring_timers_witness :
  stopMonitoring (stopMonitoring (mkState None (mkTimers ∅ 0))) =
    stopMonitoring (mkState None (mkTimers ∅ 0)) /\
  running (timers (stopMonitoring (startMonitoring (mkState None (mkTimers ∅ 0))))) =
    running (timers (mkState None (mkTimers ∅ 0))) /\
  upcoming (timers (mkState None (mkTimers ∅ 0))) ∈
    running (timers (stopMonitoring (startMonitoring (startMonitoring
                                       (mkState None (mkTimers ∅ 0)))))) /\
  wellFormed (timers (stopMonitoring (startMonitoring (mkState None (mkTimers ∅ 0))))).
Proof.
  apply (monitoring_timers (mkState None (mkTimers ∅ 0))).
  intros id Hin. simpl in Hin. by apply not_elem_of_empty in Hin.
Defined.

(** X18.  A run of the timer callback does nothing for a process whose
    heap in use is below the threshold; at or above it, it warns with
    the snapshot, and it asks for a garbage collection exactly when
    the runtime offers one. *)
Theorem tick_reclaims_when_unhealthy (this : HealthChecker) (now : Z) (iso : string)
    (memUsage : MemoryUsage) (gcAvailable : bool) :
  (tick this now iso memUsage gcAvailable = [] <->
   heapUsed memUsage < memoryThreshold this) /\
  (Warned (getHealthStatus this now iso memUsage)
     ∈ tick this now iso memUsage gcAvailable <->
   memoryThreshold this <= heapUsed memUsage) /\
  (CollectedGarbage ∈ tick this now iso memUsage gcAvailable <->
   memoryThreshold this <= heapUsed memUsage /\ gcAvailable = true).
Proof.
  unfold tick, getHealthStatus. simpl.
  destruct (bool_decide (heapUsed memUsage < memoryThreshold this)) eqn:Hh.
  - apply bool_decide_eq_true in Hh. split; [|split].
    + done.
    + split; [|lia]. intros Hin. by apply elem_of_nil in Hin.
    + split; [|lia]. intros Hin. by apply elem_of_nil in Hin.
  - apply bool_decide_eq_false in Hh. split; [|split].
    + split; [done|lia].
    + split; [lia|]. intros _. apply list_elem_of_here.
    + split.
      * intros Hin. split; [lia|]. destruct gcAvailable; [done|].
        apply elem_of_cons in Hin as [Hin|Hin]; [done|]. by apply elem_of_nil in Hin.
      * intros [_ ->]. apply list_elem_of_further, list_elem_of_here.
Qed.
End MonitorFacts.

(** ** The recent entries of the logger *)

Section LoggerFacts.
Import Logger.

(** X19.  For a positive [count], [getRecentLogs] formats the last
    [count] entries, in their order, one per line: what was logged
    before them does not show. *)
Theorem recent_logs_are_the_last (count : Z) (older recent : list Entry) :
  0 < count ->
  Z.of_nat (length recent) = count ->
  getRecentLogs count (older ++ recent) =
  String.concat newline (formatEntry <$> recent).
Proof.
  intros Hpos Hlen. unfold getRecentLogs, slice.
  rewrite bool_decide_eq_true_2 by lia.
  rewrite length_app.
  replace (Z.to_nat (Z.max (Z.of_nat (length older + length recent) + - count) 0))
    with (length older) by lia.
  by rewrite drop_app_length.
Qed.

Lemma recent_logs_are_the_last_witness :
  getRecentLogs 1 ([mkEntry INFO "first" "2025-01-01T00:00:00.000Z"]
                   ++ [mkEntry ERROR "second" "2025-01-01T00:00:01.000Z"]) =
  String.concat newline
    (formatEntry <$> [mkEntry ERROR "second" "2025-01-01T00:00:01.000Z"]).
Proof.
  apply (recent_logs_are_the_last 1
           [mkEntry INFO "first" "2025-01-01T00:00:00.000Z"]
           [mkEntry ERROR "second" "2025-01-01T00:00:01.000Z"]).
  - lia.
  - reflexivity.
Defined.

(** X20.  Asked for no fewer entries than there are, [getRecentLogs]
    formats them all; and so it does when asked for zero entries,
    since [slice(-0)] starts at the beginning. *)
Theorem recent_logs_of_zero_are_all (count : Z) (logs : list Entry) :
  (Z.of_nat (length logs) <= count ->
   getRecentLogs count logs = String.concat newline (formatEntry <$> logs)) /\
  getRecentLogs 0 logs = String.concat newline (formatEntry <$> logs).
Proof.
  unfold getRecentLogs, slice. split.
  - intros Hall. destruct (bool_decide (- count < 0)) eqn:Hneg.
    + replace (Z.to_nat (Z.max (Z.of_nat (length logs) + - count) 0)) with 0%nat by lia.
      done.
    + apply bool_decide_eq_false in Hneg.
      replace (Z.to_nat (Z.min (- count) (Z.of_nat (length logs)))) with 0%nat by lia.
      done.
  - rewrite bool_decide_eq_false_2 by lia.
    replace (Z.to_nat (Z.min (- 0) (Z.of_nat (length logs)))) with 0%nat by lia.
    done.
Qed.
End LoggerFacts.

(** ** The cache *)

Section MapFacts.
Context {A : Type}.
Implicit Types (m : JsMap.t A) (k : string).

Lemma JsMap_get_set_eq k (v : A) m : JsMap.get k (JsMap.set k v m) = Some v.
Proof.
  induction m as [|[k' v'] m IH]; simpl.
  - by rewrite decide_True.
  - destruct (decide (k = k')) as [->|Hne]; simpl.
    + by rewrite decide_True.
    + by rewrite decide_False.
Qed.

Lemma JsMap_get_None k m : JsMap.get k m = None <-> k ∉ JsMap.keys m.
Proof.
  unfold JsMap.keys. induction m as [|[k' v'] m IH]; simpl.
  - split; [|done]. intros _. apply not_elem_of_nil.
  - destruct (decide (k = k')) as [->|Hne].
    + split; [done|]. intros Hout. exfalso. apply Hout. apply list_elem_of_here.
    + rewrite IH. rewrite not_elem_of_cons. tauto.
Qed.

Lemma JsMap_set_fresh k (v : A) m :
  JsMap.get k m = None -> JsMap.set k v m = m ++ [(k, v)].
Proof.
  induction m as [|[k' v'] m IH]; simpl; [done|].
  destruct (decide (k = k')); [done|]. intros Hm. by rewrite IH.
Qed.

Lemma JsMap_size_set k (v : A) m :
  (JsMap.size (JsMap.set k v m) <= S (JsMap.size m))%nat.
Proof.
  unfold JsMap.size. induction m as [|[k' v'] m IH]; simpl; [lia|].
  destruct (decide (k = k')); simpl; lia.
Qed.

Lemma remove_size k m :
  is_Some (JsMap.get k m) ->
  S (JsMap.size (LRUCache.remove k m)) = JsMap.size m.
Proof.
  unfold JsMap.size. induction m as [|[k' v'] m IH]; simpl.
  - by intros [? ?].
  - destruct (decide (k = k')); [done|]. intros Hm. simpl. by rewrite IH.
Qed.

Lemma remove_absent k m : JsMap.get k m = None -> LRUCache.remove k m = m.
Proof.
  induction m as [|[k' v'] m IH]; simpl; [done|].
  destruct (decide (k = k')); [done|]. intros Hm. by rewrite IH.
Qed.

Lemma remove_get_other k k' m :
  k <> k' -> JsMap.get k' (LRUCache.remove k m) = JsMap.get k' m.
Proof.
  intros Hne. induction m as [|[k0 v0] m IH]; simpl; [done|].
  destruct (decide (k = k0)) as [->|Hk]; simpl.
  - by rewrite decide_False.
  - destruct (decide (k' = k0)); [done|]. apply IH.
Qed.
End MapFacts.

Section CacheFacts.
Import LRUCache.
Context {T : Type}.
Implicit Types (c : t T) (key : string).

(** X21.  [get] right after [set] of the same key returns the value
    that was set as long as the entry has not outlived [ttl], and
    nothing once it has. *)
Theorem cache_get_after_set key (v : T) (now later : Z) c :
  (get key later (set key v now c)).1 =
  if bool_decide (ttl c < later - now) then None else Some v.
Proof.
  unfold get, set. simpl. rewrite JsMap_get_set_eq. simpl.
  by destruct (bool_decide _).
Qed.

(** X22.  A cache with room for at least one entry never holds more
    than [maxSize] entries after a [set]; a cache made with a
    [maxSize] of zero holds one entry after its first [set]. *)
Theorem cache_size_bounded key (v : T) (now : Z) c :
  1 <= maxSize c ->
  Z.of_nat (size c) <= maxSize c ->
  Z.of_nat (size (set key v now c)) <= maxSize c /\
  size (set key v now (create 0 (ttl c))) = 1%nat.
Proof.
  intros Hroom Hsize. split; [|done].
  unfold set, size in *. simpl.
  destruct (JsMap.get key (cache c)) as [item|] eqn:Hget.
  - rewrite bool_decide_eq_true_2 by done.
    pose proof (remove_size key (cache c) (mk_is_Some _ _ Hget)) as Hrem.
    pose proof (JsMap_size_set key (mkItem v now) (remove key (cache c))) as Hset.
    lia.
  - rewrite bool_decide_eq_false_2 by (by intros [? ?]).
    destruct (bool_decide (maxSize c <= Z.of_nat (JsMap.size (cache c)))) eqn:Hfull.
    + destruct (cache c) as [|[firstKey item] rest] eqn:Hc; simpl in *; [lia|].
      rewrite decide_True by done.
      pose proof (JsMap_size_set key (mkItem v now) rest) as Hset.
      unfold JsMap.size in *. simpl in *. lia.
    + apply bool_decide_eq_false in Hfull.
      pose proof (JsMap_size_set key (mkItem v now) (cache c)) as Hset. lia.
Qed.

Lemma JsMap_get_snoc_None key key' (item : Item T) (m : JsMap.t (Item T)) :
  key <> key' -> JsMap.get key m = None -> JsMap.get key (m ++ [(key', item)]) = None.
Proof.
  intros Hne. induction m as [|[k1 i1] m IH]; simpl.
  - by rewrite decide_False.
  - destruct (decide (key = k1)); [done|]. apply IH.
Qed.

(** X23.  What a full cache evicts at a [set] of a new key is its
    oldest entry, and a [get] that hits makes its entry the newest:
    after a hit on the oldest entry, the next [set] of a new key evicts
    the second oldest instead and keeps the one that was read. *)
Theorem cache_evicts_least_recently_used key (v : T) (now hit : Z)
    (k0 k1 : string) (i0 i1 : Item T) (rest : JsMap.t (Item T)) (limit lifetime : Z) :
  let c := mkCache ((k0, i0) :: (k1, i1) :: rest) limit lifetime in
  JsMap.get k0 ((k1, i1) :: rest) = None ->
  JsMap.get key (cache c) = None ->
  limit <= Z.of_nat (size c) ->
  hit - timestamp i0 <= lifetime ->
  cache (set key v now c) = (k1, i1) :: rest ++ [(key, mkItem v now)] /\
  (get k0 hit c).1 = Some (value i0) /\
  cache (set key v now (get k0 hit c).2) =
    rest ++ [(k0, i0); (key, mkItem v now)].
Proof.
  intros c Hk0 Hkey Hfull Hfresh. subst c. simpl in Hkey.
  destruct (decide (key = k0)) as [|Hne0]; [done|].
  destruct (decide (key = k1)) as [|Hne1]; [done|].
  simpl in Hk0. destruct (decide (k0 = k1)) as [|Hne01]; [done|].
  assert (Hget0 : forall m, JsMap.get k0 ((k0, i0) :: m) = Some i0).
  { intros m. simpl. by rewrite decide_True. }
  split; [|split].
  - unfold set. simpl. rewrite !decide_False by done. rewrite Hkey.
    rewrite bool_decide_eq_false_2 by (by intros [? ?]).
    rewrite bool_decide_eq_true_2 by done.
    simpl. rewrite decide_True by done. simpl. rewrite decide_False by done.
    by rewrite JsMap_set_fresh.
  - unfold get. cbn [cache ttl]. rewrite Hget0.
    by rewrite bool_decide_eq_false_2 by lia.
  - unfold get. cbn [cache ttl]. rewrite Hget0.
    rewrite bool_decide_eq_false_2 by lia.
    cbn [remove]. rewrite decide_True by done. cbn [snd withCache cache maxSize ttl].
    cbn [JsMap.set]. rewrite decide_False by done.
    rewrite (JsMap_set_fresh k0 i0 rest) by done.
    unfold set. cbn [cache maxSize ttl withCache].
    assert (Hkey1 : JsMap.get key ((k1, i1) :: rest ++ [(k0, i0)]) = None).
    { simpl. rewrite decide_False by done. by apply JsMap_get_snoc_None. }
    rewrite Hkey1. rewrite bool_decide_eq_false_2 by (by intros [? ?]).
    rewrite bool_decide_eq_true_2.
    2:{ unfold size, JsMap.size in *. simpl in *. rewrite length_app. simpl. lia. }
    cbn [JsMap.keys fmap list_fmap fst remove]. rewrite decide_True by done.
    simpl in Hkey1. rewrite decide_False in Hkey1 by done.
    rewrite JsMap_set_fresh by done. by rewrite <- app_assoc.
Qed.

(** X24.  The cache never hands out an entry that has outlived [ttl]:
    a value that [get] returns belongs to an entry of the cache that
    is not older than [ttl], [has] tells the same, and every key that
    [keys] lists is bound to such an entry. *)
Theorem cache_never_returns_expired key (now : Z) c :
  (forall v, (get key now c).1 = Some v ->
             exists item, JsMap.get key (cache c) = Some item /\
                          value item = v /\ now - timestamp item <= ttl c) /\
  ((has key now c).1 = true ->
   exists item, JsMap.get key (cache c) = Some item /\
                now - timestamp item <= ttl c) /\
  (forall k, k ∈ (keys now c).1 ->
             exists item, (k, item) ∈ cache c /\ now - timestamp item <= ttl c).
Proof.
  split; [|split].
  - intros v. unfold get.
    destruct (JsMap.get key (cache c)) as [item|]; [|done].
    destruct (bool_decide _) eqn:Hold; [done|].
    apply bool_decide_eq_false in Hold. simpl. intros [= <-].
    exists item. split; [done|]. split; [done|lia].
  - unfold has.
    destruct (JsMap.get key (cache c)) as [item|]; [|done].
    destruct (bool_decide _) eqn:Hold; [done|].
    apply bool_decide_eq_false in Hold. intros _. exists item. split; [done|lia].
  - intros k. unfold keys, cleanExpired, JsMap.keys. simpl.
    intros Hin. apply list_elem_of_fmap in Hin as ([k' item] & -> & Hin).
    apply list_elem_of_In, filter_In in Hin as [Hin Hlive].
    apply list_elem_of_In in Hin. exists item. split; [done|].
    apply negb_true_iff, bool_decide_eq_false in Hlive. simpl. lia.
Qed.
End CacheFacts.

(** ** The statements with hypotheses, at concrete inputs *)

Lemma registered_tool_outcome_witness :
  exists body,
    handlerOf echo echo echo echo "calculate" = Some body /\
    (callToolHandler echo echo echo echo (initializeTools defaultConfig)
       "calculate" "2 + 3" (worldAt 0 ∅)).1 =
    inl (CallToolResult
           match (body "2 + 3" (env (worldAt 0 ∅))).1 with
           | inl result => result
           | inr error => errorResult (errorMessageOf error)
           end).
Proof.
  apply (registered_tool_outcome echo echo echo echo defaultConfig
           "calculate" "2 + 3" CalculatorTool (worldAt 0 ∅)).
  reflexivity.
Defined.

Lemma cache_size_bounded_witness :
  Z.of_nat (LRUCache.size (LRUCache.set "a" 1%nat 0 (LRUCache.create 2 1000))) <= 2 /\
  LRUCache.size (LRUCache.set "a" 1%nat 0 (LRUCache.create 0 1000)) = 1%nat.
Proof.
  apply (cache_size_bounded "a" 1%nat 0 (LRUCache.create 2 1000)).
  - cbn. lia.
  - cbn. lia.
Defined.

Lemma cache_evicts_least_recently_used_witness :
  let c := LRUCache.mkCache [("a", LRUCache.mkItem 1%nat 0); ("b", LRUCache.mkItem 2%nat 1)]
                            2 1000 in
  LRUCache.cache (LRUCache.set "c" 3%nat 10 c) =
    ("b", LRUCache.mkItem 2%nat 1) :: [] ++ [("c", LRUCache.mkItem 3%nat 10)] /\
  (LRUCache.get "a" 5 c).1 = Some 1%nat /\
  LRUCache.cache (LRUCache.set "c" 3%nat 10 (LRUCache.get "a" 5 c).2) =
    [] ++ [("a", LRUCache.mkItem 1%nat 0); ("c", LRUCache.mkItem 3%nat 10)].
Proof.
  apply (cache_evicts_least_recently_used "c" 3%nat 10 5 "a" "b"
           (LRUCache.mkItem 1%nat 0) (LRUCache.mkItem 2%nat 1) [] 2 1000).
  - reflexivity.
  - reflexivity.
  - cbn. lia.
  - cbn. lia.
Defined.
